(** * spanish-flashcards-api: the rate limiter and the request pipeline of
      [api/chat.ts], embedded shallowly and checked against its specification.

    Modelling conventions.
    - JavaScript numbers that the handler computes with ([Date.now()],
      [count], [resetTime], [maxRequests], [windowMs]) are integral and far
      below 2^53, so they are modelled as [Z]; [count++] and
      [now + windowMs] are exact there.
    - [rateLimitMap] is a [Map<string, {count, resetTime}>]: a
      [gmap string RateLimitEntry].  [checkRateLimit] mutates the entry
      object it read from the map and then stores that same object with
      [Map.set]; no other reference to an entry survives the call, so the
      update is modelled as an insertion of the updated record.
    - [Date.now()] is an input of each call ([now], [Date_now]).
    - The handler is asynchronous, but it reads and writes the map only
      before its first [await]; an invocation is therefore a function from
      the map before it to a [Run], and what the two awaited promises settle
      to is an input ([fetch] of the [Host]).
    - A thrown exception is a [Throw] of the [Result] type; the [try] block
      is a computation in that type and the [catch] is the match on it. *)

From Stdlib Require Import ZArith QArith Ascii String.
From stdpp Require Import gmap strings list fin_maps pretty.

Local Open Scope string_scope.
Local Open Scope Z_scope.

(** ** Rate limiter *)

Record RateLimitEntry := { count : Z; resetTime : Z }.

Record RateLimitConfig := { maxRequests : Z; windowMs : Z }.

Definition RATE_LIMIT : RateLimitConfig :=
  {| maxRequests := 100; windowMs := 60 * 60 * 1000 |}.

Record RateLimitResult :=
  { allowed : bool; remaining : Z; result_resetTime : Z }.

(** Lines 17-25: the entry the call works on.  The stored entry is kept
    unless it is missing or [now > entry.resetTime]. *)
Definition fresh_entry (now : Z) : RateLimitEntry :=
  {| count := 0; resetTime := now + windowMs RATE_LIMIT |}.

Definition window_entry (now : Z) (stored : option RateLimitEntry) : RateLimitEntry :=
  match stored with
  | None => fresh_entry now
  | Some entry => if now >? resetTime entry then fresh_entry now else entry
  end.

(** Lines 12-46.  Returns the result and the map after the call. *)
Definition checkRateLimit (ip : string) (now : Z)
    (rateLimitMap : gmap string RateLimitEntry)
    : RateLimitResult * gmap string RateLimitEntry :=
  let key := ip in
  let entry := window_entry now (rateLimitMap !! key) in
  if count entry >=? maxRequests RATE_LIMIT then
    ({| allowed := false; remaining := 0; result_resetTime := resetTime entry |},
     <[key := entry]> rateLimitMap)
  else
    let entry := {| count := count entry + 1; resetTime := resetTime entry |} in
    ({| allowed := true;
        remaining := maxRequests RATE_LIMIT - count entry;
        result_resetTime := resetTime entry |},
     <[key := entry]> rateLimitMap).

(** A run of the limiter: calls [(ip, now)] served one after the other on
    the shared map, each result tagged with the key it was made for. *)
Fixpoint serve (rateLimitMap : gmap string RateLimitEntry)
    (calls : list (string * Z))
    : list (string * RateLimitResult) * gmap string RateLimitEntry :=
  match calls with
  | [] => ([], rateLimitMap)
  | (ip, now) :: rest =>
      let '(r, m1) := checkRateLimit ip now rateLimitMap in
      let '(rs, m2) := serve m1 rest in
      ((ip, r) :: rs, m2)
  end.

Definition times_for (key : string) (calls : list (string * Z)) : list Z :=
  (filter (λ c, c.1 = key) calls).*2.

Definition results_for (key : string) (rs : list (string * RateLimitResult))
    : list RateLimitResult :=
  (filter (λ c, c.1 = key) rs).*2.

(** States of the map that the program can be in: it starts empty and is
    only ever changed by [checkRateLimit]. *)
Inductive reachable : gmap string RateLimitEntry → Prop :=
  | reachable_start : reachable ∅
  | reachable_call ip now m :
      reachable m → reachable (checkRateLimit ip now m).2.

Definition count_bounded (m : gmap string RateLimitEntry) : Prop :=
  ∀ key entry, m !! key = Some entry → count entry ≤ maxRequests RATE_LIMIT.

(** What the [i]-th call of a window gets, [used] requests having been
    counted in it already. *)
Definition verdict (used : Z) (reset : Z) : RateLimitResult :=
  if used <? maxRequests RATE_LIMIT then
    {| allowed := true; remaining := maxRequests RATE_LIMIT - (used + 1);
       result_resetTime := reset |}
  else {| allowed := false; remaining := 0; result_resetTime := reset |}.

(** ** JavaScript values the handler inspects *)

(** Values of [req.body] and of the upstream's decoded JSON.  A number is a
    rational: only its truthiness is inspected, and JSON literals are
    decimal.  An object lists its own properties. *)
#[warnings="-register-all"]
Inductive JsValue :=
  | JUndefined
  | JNull
  | JBool (b : bool)
  | JNum (q : Q)
  | JStr (s : string)
  | JArr (items : list JsValue)
  | JObj (props : list (string * JsValue)).

(** What a [throw] carries. *)
Inductive JsError :=
  | Error (message : string)          (* [new Error(message)] *)
  | TypeError                         (* property read on undefined or null *)
  | RangeError                        (* [toISOString] of an invalid date *)
  | Rejection (reason : string).      (* raised inside fetch or response.json *)

Inductive Result (A : Type) :=
  | Normal (a : A)
  | Throw (e : JsError).
Arguments Normal {A} a.
Arguments Throw {A} e.

Definition bind {A B} (r : Result A) (k : A → Result B) : Result B :=
  match r with
  | Normal a => k a
  | Throw e => Throw e
  end.

Notation "x ←! r ; k" := (bind r (λ x, k))
  (at level 20, r at level 100, k at level 200, right associativity,
   format "x  ←!  r ;  '/' k").

(** [!v] is [negb (truthy v)]. *)
Definition truthy (v : JsValue) : bool :=
  match v with
  | JUndefined | JNull => false
  | JBool b => b
  | JNum q => negb (Qeq_bool q 0)
  | JStr s => negb (String.eqb s "")
  | JArr _ | JObj _ => true
  end.

Fixpoint assoc (name : string) (props : list (string * JsValue)) : option JsValue :=
  match props with
  | [] => None
  | (k, v) :: rest => if String.eqb k name then Some v else assoc name rest
  end.

(** [v.name] for the names the handler reads ([message], [choices],
    [content]): none of them is an index, [length] or a prototype member, so
    only an object can have it; reading it from undefined or null throws. *)
Definition getField (v : JsValue) (name : string) : Result JsValue :=
  match v with
  | JUndefined | JNull => Throw TypeError
  | JObj props => Normal (default JUndefined (assoc name props))
  | _ => Normal JUndefined
  end.

(** [v[i]] for a literal index [i]. *)
Definition getIndex (v : JsValue) (i : nat) : Result JsValue :=
  match v with
  | JUndefined | JNull => Throw TypeError
  | JArr items => Normal (default JUndefined (items !! i))
  | JStr s =>
      Normal (match String.get i s with
              | Some c => JStr (String c "")
              | None => JUndefined
              end)
  | JObj props => Normal (default JUndefined (assoc (pretty i) props))
  | _ => Normal JUndefined
  end.

(** [v?.name]: undefined when [v] is undefined or null. *)
Definition getFieldOpt (v : JsValue) (name : string) : Result JsValue :=
  match v with
  | JUndefined | JNull => Normal JUndefined
  | _ => getField v name
  end.

(** [a || b] on values that are a string or undefined. *)
Definition str_truthy (a : option string) : bool :=
  match a with
  | Some s => negb (String.eqb s "")
  | None => false
  end.

Definition str_or (a b : option string) : option string :=
  if str_truthy a then a else b.

(** [s.split(',')[0]]: the part of [s] before its first [sep]. *)
Fixpoint split_head (sep : ascii) (s : string) : string :=
  match s with
  | "" => ""
  | String c rest => if Ascii.eqb c sep then "" else String c (split_head sep rest)
  end.

(** [s.replace(pat, rep)] with a string pattern and a replacement free of
    [$] patterns: the first occurrence only. *)
Fixpoint replace (pat rep s : string) : string :=
  if String.prefix pat s then rep ++ String.substring (String.length pat) (String.length s - String.length pat)%nat s
  else match s with
       | "" => ""
       | String c rest => String c (replace pat rep rest)
       end.

(** A template literal hole holding a string or undefined. *)
Definition interpolate (a : option string) : string := default "undefined" a.

(** ** The request, the host and the upstream *)

Record Headers :=
  { x_forwarded_for : option string;
    x_real_ip : option string;
    authorization : option string }.

(** [remoteAddress] is [req.connection?.remoteAddress]. *)
Record VercelRequest :=
  { method : option string;
    headers : Headers;
    remoteAddress : option string;
    body : JsValue }.

Record ChatMessage := { role : string; content : JsValue }.

Record CompletionPayload :=
  { model : string;
    messages : list ChatMessage;
    max_tokens : Z;
    temperature : Q }.

(** The arguments of the [fetch] call; [fetch_body] is the object handed to
    [JSON.stringify]. *)
Record FetchRequest :=
  { url : string;
    fetch_method : string;
    fetch_headers : list (string * string);
    fetch_body : CompletionPayload }.

(** What awaiting [response.json()] gives. *)
Inductive JsonOutcome :=
  | JsonResolved (data : JsValue)
  | JsonRejected (e : JsError).

(** What awaiting [fetch(...)] gives. *)
Inductive FetchOutcome :=
  | FetchResolved (ok : bool) (status : Z) (json : JsonOutcome)
  | FetchRejected (e : JsError).

(** Everything the handler reads from outside the request: the clock, the
    process environment, the upstream behind [fetch], and the runtime's
    rendering of a valid date as an ISO string. *)
Record Host :=
  { Date_now : Z;
    BETA_API_KEY : option string;
    OPENAI_API_KEY : option string;
    fetch : FetchRequest → FetchOutcome;
    formatISO : Z → string }.

(** [new Date(t).toISOString()]: a time value beyond 8.64e15 ms from the
    epoch makes an invalid date, on which [toISOString] throws. *)
Definition toISOString (host : Host) (t : Z) : Result string :=
  if Z.abs t <=? 8640000000000000 then Normal (formatISO host t)
  else Throw RangeError.

Inductive ConsoleEntry :=
  | console_log (line : string)
  | console_error (label : string) (e : JsError).

(** How the invocation ends: [res.status(s).json(b)], or an exception that
    leaves the handler. *)
Inductive Completion :=
  | Responded (status : Z) (json : JsValue)
  | Uncaught (e : JsError).

(** One invocation of the handler: the map it leaves, the [res.setHeader]
    calls made before the response was sent, how it ended, the [fetch]
    calls it made and what it wrote to the console. *)
Record Run :=
  { map_after : gmap string RateLimitEntry;
    headers_set : list (string * Z);
    completion : Completion;
    fetch_calls : list FetchRequest;
    console : list ConsoleEntry }.

Definition error_body (msg : string) : JsValue := JObj [("error", JStr msg)].

Definition system_prompt : string :=
  "Task: Translate between Mexican Spanish and English for flashcard study. For Spanish input, provide the English meaning. For English input, provide the most common Mexican Spanish translation. Tone: Use everyday, conversational Mexican Spanish words and phrases that are commonly used in daily life. Avoid formal, literary, or regional variants from other Spanish-speaking countries. Rules: - Keep responses brief and direct - ideal for quick flashcard review - Do not repeat the original term in your response - Use only the most common Mexican Spanish words - Provide single, clear translations without explanations".

(** Lines 97-118: the arguments of [fetch]. *)
Definition completion_request (host : Host) (message : JsValue) : FetchRequest :=
  {| url := "https://api.openai.com/v1/chat/completions";
     fetch_method := "POST";
     fetch_headers :=
       [("Content-Type", "application/json");
        ("Authorization", "Bearer " ++ interpolate (OPENAI_API_KEY host))];
     fetch_body :=
       {| model := "gpt-5-mini";
          messages := [ {| role := "system"; content := JStr system_prompt |};
                        {| role := "user"; content := message |} ];
          max_tokens := 500;
          temperature := 7 # 10 |} |}.

(** Line 125: [data.choices[0]?.message?.content]. *)
Definition first_choice_content (data : JsValue) : Result JsValue :=
  choices ←! getField data "choices";
  first ←! getIndex choices 0;
  message ←! getFieldOpt first "message";
  getFieldOpt message "content".

(** Lines 124-131: what is made of the decoded upstream body. *)
Definition read_completion (data : JsValue) : Result (Z * JsValue) :=
  aiResponse ←! first_choice_content data;
  if negb (truthy aiResponse) then Throw (Error "No response from OpenAI")
  else Normal (200, JObj [("response", aiResponse)]).

(** Lines 91-131: the body of the [try].  Gives the response it sends, or
    the exception it throws, and the [fetch] calls made on the way. *)
Definition try_block (host : Host) (req : VercelRequest)
    : Result (Z * JsValue) * list FetchRequest :=
  match getField (body req) "message" with
  | Throw e => (Throw e, [])
  | Normal message =>
      if negb (truthy message) then
        (Normal (400, error_body "Message is required"), [])
      else
        let call := completion_request host message in
        (match fetch host call with
         | FetchRejected e => Throw e
         | FetchResolved ok status json =>
             if negb ok then Throw (Error ("OpenAI API error: " ++ pretty status))
             else match json with
                  | JsonRejected e => Throw e
                  | JsonResolved data => read_completion data
                  end
         end, [call])
  end.

(** Lines 54-57. *)
Definition clientIP (req : VercelRequest) : string :=
  let forwarded := split_head "," <$> x_forwarded_for (headers req) in
  default "unknown"
    (str_or (str_or (str_or forwarded (x_real_ip (headers req)))
                    (remoteAddress req))
            (Some "unknown")).

(** Lines 48-136. *)
Definition handler (host : Host) (req : VercelRequest)
    (rateLimitMap : gmap string RateLimitEntry) : Run :=
  if negb (bool_decide (method req = Some "POST")) then
    {| map_after := rateLimitMap; headers_set := [];
       completion := Responded 405 (error_body "Method not allowed");
       fetch_calls := []; console := [] |}
  else
    let '(rateLimitResult, m) :=
      checkRateLimit (clientIP req) (Date_now host) rateLimitMap in
    if negb (allowed rateLimitResult) then
      match toISOString host (result_resetTime rateLimitResult) with
      | Throw e =>
          {| map_after := m; headers_set := []; completion := Uncaught e;
             fetch_calls := []; console := [] |}
      | Normal resetDate =>
          {| map_after := m; headers_set := [];
             completion :=
               Responded 429
                 (JObj [("error", JStr "Rate limit exceeded");
                        ("message", JStr ("Too many requests. Rate limit resets at " ++ resetDate));
                        ("resetTime", JNum (inject_Z (result_resetTime rateLimitResult)))]);
             fetch_calls := []; console := [] |}
      end
    else
      let sent :=
        [("X-RateLimit-Limit", maxRequests RATE_LIMIT);
         ("X-RateLimit-Remaining", remaining rateLimitResult);
         ("X-RateLimit-Reset", result_resetTime rateLimitResult)] in
      let authHeader := authorization (headers req) in
      let expectedKey := BETA_API_KEY host in
      match authHeader with
      | None =>
          {| map_after := m; headers_set := sent;
             completion := Responded 401 (error_body "Authorization header required");
             fetch_calls := []; console := [] |}
      | Some auth =>
          if negb (str_truthy authHeader) || negb (String.prefix "Bearer " auth) then
            {| map_after := m; headers_set := sent;
               completion := Responded 401 (error_body "Authorization header required");
               fetch_calls := []; console := [] |}
          else
            let providedKey := replace "Bearer " "" auth in
            if negb (bool_decide (Some providedKey = expectedKey)) then
              {| map_after := m; headers_set := sent;
                 completion := Responded 401 (error_body "Invalid API key");
                 fetch_calls := [];
                 console :=
                   [console_log
                      ("Unauthorized API access attempt from " ++
                       interpolate (str_or (x_forwarded_for (headers req))
                                           (remoteAddress req)))] |}
            else
              match try_block host req with
              | (Normal (status, json), calls) =>
                  {| map_after := m; headers_set := sent;
                     completion := Responded status json;
                     fetch_calls := calls; console := [] |}
              | (Throw error, calls) =>
                  {| map_after := m; headers_set := sent;
                     completion := Responded 500 (error_body "Failed to get response from AI");
                     fetch_calls := calls;
                     console := [console_error "API Error:" error] |}
              end
      end.

(** ** Runs of the server

    Requests handled one after the other on the shared map, each under the
    host state (clock, environment, upstream) it meets.  An invocation
    touches the map before its first [await] only, so the order is that in
    which the invocations start. *)

Fixpoint handle_requests (rateLimitMap : gmap string RateLimitEntry)
    (reqs : list (Host * VercelRequest)) : list (VercelRequest * Run) :=
  match reqs with
  | [] => []
  | (host, req) :: rest =>
      let run := handler host req rateLimitMap in
      (req, run) :: handle_requests (map_after run) rest
  end.

(** The times of the POST requests of a client in a run. *)
Definition post_times (key : string) (reqs : list (Host * VercelRequest)) : list Z :=
  (λ hr, Date_now hr.1)
    <$> filter (λ hr, method hr.2 = Some "POST" ∧ clientIP hr.2 = key) reqs.

(** The fetch calls made for the requests of a client in a run. *)
Definition upstream_calls (key : string) (runs : list (VercelRequest * Run))
    : list FetchRequest :=
  mjoin ((λ rr, fetch_calls rr.2) <$> filter (λ rr, clientIP rr.1 = key) runs).

(** ** Vocabulary of the statements *)

(** The three headers of lines 72-74, for a given limiter result. *)
Definition rate_limit_headers (r : RateLimitResult) : list (string * Z) :=
  [("X-RateLimit-Limit", maxRequests RATE_LIMIT);
   ("X-RateLimit-Remaining", remaining r);
   ("X-RateLimit-Reset", result_resetTime r)].

Definition header_set (name : string) (run : Run) : bool :=
  bool_decide (name ∈ (headers_set run).*1).

(** The limiter's answer to a request. *)
Definition rate_check (host : Host) (req : VercelRequest)
    (m : gmap string RateLimitEntry) : RateLimitResult :=
  (checkRateLimit (clientIP req) (Date_now host) m).1.

(** The ways the upstream call can fail: a status that is not ok, an
    exception from [fetch] (network, timeout) or from [response.json()]
    (broken or malformed body), decoded data whose content cannot be read
    (no [choices]), and a first choice whose message content is absent or
    null, or falsy in any other way. *)
Inductive upstream_failure : FetchOutcome → Prop :=
  | upstream_not_ok status json :
      upstream_failure (FetchResolved false status json)
  | upstream_exception e :
      upstream_failure (FetchRejected e)
  | upstream_body_exception status e :
      upstream_failure (FetchResolved true status (JsonRejected e))
  | upstream_unreadable status data e :
      first_choice_content data = Throw e →
      upstream_failure (FetchResolved true status (JsonResolved data))
  | upstream_no_content status data v :
      first_choice_content data = Normal v →
      v = JUndefined ∨ v = JNull →
      upstream_failure (FetchResolved true status (JsonResolved data))
  | upstream_falsy_content status data v :
      first_choice_content data = Normal v →
      truthy v = false →
      upstream_failure (FetchResolved true status (JsonResolved data)).

(** ** Sample inputs

    The inputs of the repository's test suite: its keys, a decodable
    upstream answer, and a client that has used up its window. *)

Definition sample_upstream (call : FetchRequest) : FetchOutcome :=
  FetchResolved true 200
    (JsonResolved
       (JObj [("choices",
               JArr [JObj [("message", JObj [("content", JStr "Hello in English")])]])])).

(** The samples render one date only, that of time value 3600000. *)
Definition sample_host : Host :=
  {| Date_now := 0;
     BETA_API_KEY := Some "test-api-key-123";
     OPENAI_API_KEY := Some "test-openai-key";
     fetch := sample_upstream;
     formatISO := λ _, "1970-01-01T01:00:00.000Z" |}.

Definition sample_request : VercelRequest :=
  {| method := Some "POST";
     headers := {| x_forwarded_for := Some "192.168.1.2";
                   x_real_ip := None;
                   authorization := Some "Bearer test-api-key-123" |};
     remoteAddress := Some "127.0.0.1";
     body := JObj [("message", JStr "hola")] |}.

Definition with_authorization (auth : option string) (req : VercelRequest)
    : VercelRequest :=
  {| method := method req;
     headers := {| x_forwarded_for := x_forwarded_for (headers req);
                   x_real_ip := x_real_ip (headers req);
                   authorization := auth |};
     remoteAddress := remoteAddress req;
     body := body req |}.

Definition with_body (b : JsValue) (req : VercelRequest) : VercelRequest :=
  {| method := method req; headers := headers req;
     remoteAddress := remoteAddress req; body := b |}.

Definition with_method (meth : option string) (req : VercelRequest) : VercelRequest :=
  {| method := meth; headers := headers req;
     remoteAddress := remoteAddress req; body := body req |}.

Definition with_fetch (f : FetchRequest → FetchOutcome) (host : Host) : Host :=
  {| Date_now := Date_now host; BETA_API_KEY := BETA_API_KEY host;
     OPENAI_API_KEY := OPENAI_API_KEY host; fetch := f;
     formatISO := formatISO host |}.

(** Upstreams that fail in each of the ways the test suite exercises. *)
Definition upstream_status_401 (call : FetchRequest) : FetchOutcome :=
  FetchResolved false 401 (JsonResolved JUndefined).

Definition upstream_network_error (call : FetchRequest) : FetchOutcome :=
  FetchRejected (Error "Network error").

Definition upstream_null_content (call : FetchRequest) : FetchOutcome :=
  FetchResolved true 200
    (JsonResolved
       (JObj [("choices", JArr [JObj [("message", JObj [("content", JNull)])]])])).

Definition upstream_no_choices (call : FetchRequest) : FetchOutcome :=
  FetchResolved true 200 (JsonResolved (JObj [("choices", JArr [])])).

Definition upstream_broken_body (call : FetchRequest) : FetchOutcome :=
  FetchResolved true 200 (JsonRejected (Rejection "Unexpected end of JSON input")).

Definition upstream_without_choices (call : FetchRequest) : FetchOutcome :=
  FetchResolved true 200 (JsonResolved (JObj [("id", JStr "chatcmpl-1")])).

Definition upstream_empty_content (call : FetchRequest) : FetchOutcome :=
  FetchResolved true 200
    (JsonResolved
       (JObj [("choices", JArr [JObj [("message", JObj [("content", JStr "")])]])])).

(** The map after 100 requests of the sample client at time 0. *)
Definition exhausted_map : gmap string RateLimitEntry :=
  (serve ∅ (replicate 100 ("192.168.1.2", 0))).2.

(** A run with 101 calls of one client after a call of another. *)
Definition hundred_and_one_calls : list (string * Z) :=
  ("10.0.0.1", 0) :: replicate 101 ("192.168.1.2", 5).

(** * Properties of the rate limiter *)

Section RateLimiter.
Implicit Types (m : gmap string RateLimitEntry) (ip key : string).
Implicit Types (now : Z) (entry : RateLimitEntry) (calls : list (string * Z)).

Lemma maxRequests_positive : 0 < maxRequests RATE_LIMIT.
Proof. reflexivity. Qed.

Lemma windowMs_positive : 0 < windowMs RATE_LIMIT.
Proof. reflexivity. Qed.

(** The two ways a call can go, in terms of the entry it works on. *)
Lemma checkRateLimit_denies ip now m :
  maxRequests RATE_LIMIT ≤ count (window_entry now (m !! ip)) →
  checkRateLimit ip now m =
    ({| allowed := false; remaining := 0;
        result_resetTime := resetTime (window_entry now (m !! ip)) |},
     <[ip := window_entry now (m !! ip)]> m).
Proof.
  intros Hge. unfold checkRateLimit.
  destruct (Z.geb_spec (count (window_entry now (m !! ip))) (maxRequests RATE_LIMIT));
    [reflexivity | lia].
Qed.

Lemma checkRateLimit_admits ip now m :
  count (window_entry now (m !! ip)) < maxRequests RATE_LIMIT →
  checkRateLimit ip now m =
    ({| allowed := true;
        remaining := maxRequests RATE_LIMIT - (count (window_entry now (m !! ip)) + 1);
        result_resetTime := resetTime (window_entry now (m !! ip)) |},
     <[ip := {| count := count (window_entry now (m !! ip)) + 1;
                resetTime := resetTime (window_entry now (m !! ip)) |}]> m).
Proof.
  intros Hlt. unfold checkRateLimit.
  destruct (Z.geb_spec (count (window_entry now (m !! ip))) (maxRequests RATE_LIMIT));
    [lia | reflexivity].
Qed.

Lemma window_entry_none now : window_entry now None = fresh_entry now.
Proof. reflexivity. Qed.

Lemma window_entry_expired now entry :
  resetTime entry < now → window_entry now (Some entry) = fresh_entry now.
Proof.
  intros Hlt. unfold window_entry.
  destruct (Z.gtb_spec now (resetTime entry)); [reflexivity | lia].
Qed.

Lemma window_entry_live now entry :
  now ≤ resetTime entry → window_entry now (Some entry) = entry.
Proof.
  intros Hle. unfold window_entry.
  destruct (Z.gtb_spec now (resetTime entry)); [lia | reflexivity].
Qed.

(** A call touches no key but its own. *)
Lemma checkRateLimit_frame ip now m key :
  key ≠ ip → (checkRateLimit ip now m).2 !! key = m !! key.
Proof.
  intros Hne. unfold checkRateLimit.
  destruct (_ >=? _); cbn; by rewrite lookup_insert_ne.
Qed.

Lemma times_for_cons_eq key now calls :
  times_for key ((key, now) :: calls) = now :: times_for key calls.
Proof. unfold times_for. by rewrite filter_cons_True. Qed.

Lemma times_for_cons_ne key ip now calls :
  ip ≠ key → times_for key ((ip, now) :: calls) = times_for key calls.
Proof. intros Hne. unfold times_for. by rewrite filter_cons_False. Qed.

Lemma results_for_cons_eq key (r : RateLimitResult) rs :
  results_for key ((key, r) :: rs) = r :: results_for key rs.
Proof. unfold results_for. by rewrite filter_cons_True. Qed.

Lemma results_for_cons_ne key ip (r : RateLimitResult) rs :
  ip ≠ key → results_for key ((ip, r) :: rs) = results_for key rs.
Proof. intros Hne. unfold results_for. by rewrite filter_cons_False. Qed.

Lemma serve_cons m ip now calls :
  serve m ((ip, now) :: calls) =
    ((ip, (checkRateLimit ip now m).1) :: (serve (checkRateLimit ip now m).2 calls).1,
     (serve (checkRateLimit ip now m).2 calls).2).
Proof.
  cbn [serve]. destruct (checkRateLimit ip now m) as [r m1]. cbn [fst snd].
  by destruct (serve m1 calls).
Qed.

(** Calls for other keys leave a key's entry as it is. *)
Lemma serve_frame key calls : ∀ m,
  times_for key calls = [] → (serve m calls).2 !! key = m !! key.
Proof.
  induction calls as [|[ip now] calls IH]; intros m Hnone; [done|].
  rewrite serve_cons. cbn [snd].
  destruct (decide (ip = key)) as [->|Hne].
  - by rewrite times_for_cons_eq in Hnone.
  - rewrite times_for_cons_ne in Hnone by done.
    rewrite IH by done. by apply checkRateLimit_frame.
Qed.

Lemma verdict_saturated used extra reset :
  maxRequests RATE_LIMIT ≤ used → 0 ≤ extra →
  verdict (used + extra) reset = verdict used reset.
Proof.
  intros Hge Hextra. unfold verdict.
  destruct (Z.ltb_spec (used + extra) (maxRequests RATE_LIMIT)); [lia|].
  destruct (Z.ltb_spec used (maxRequests RATE_LIMIT)); [lia | done].
Qed.

(** Inside a window: with [used] requests counted, the calls for the key
    that arrive no later than [reset] are answered by [verdict], whatever
    calls for other keys come in between. *)
Lemma serve_in_window key reset calls : ∀ m used (i : nat),
  m !! key = Some {| count := used; resetTime := reset |} →
  Forall (λ t, t ≤ reset) (times_for key calls) →
  (i < length (times_for key calls))%nat →
  results_for key (serve m calls).1 !! i = Some (verdict (used + Z.of_nat i) reset).
Proof.
  induction calls as [|[ip now] calls IH]; intros m used i Hm Hts Hi.
  { cbn in Hi. lia. }
  rewrite serve_cons. cbn [fst].
  destruct (decide (ip = key)) as [->|Hne].
  - rewrite times_for_cons_eq in Hts, Hi. rewrite results_for_cons_eq.
    apply Forall_cons in Hts as [Hnow Hts].
    pose proof (window_entry_live now {| count := used; resetTime := reset |} Hnow)
      as Hlive.
    destruct (Z.lt_ge_cases used (maxRequests RATE_LIMIT)) as [Hlt|Hge].
    + rewrite checkRateLimit_admits by (rewrite Hm, Hlive; done).
      rewrite Hm, Hlive. cbn [fst snd count resetTime].
      destruct i as [|i].
      * cbn. unfold verdict. rewrite Z.add_0_r.
        destruct (Z.ltb_spec used (maxRequests RATE_LIMIT)); [done | lia].
      * cbn [lookup list_lookup]. cbn in Hi.
        rewrite (IH _ (used + 1)); [| by rewrite lookup_insert_eq | done | lia].
        do 2 f_equal. lia.
    + rewrite checkRateLimit_denies by (rewrite Hm, Hlive; done).
      rewrite Hm, Hlive. cbn [fst snd count resetTime].
      rewrite verdict_saturated by lia.
      destruct i as [|i].
      * cbn. unfold verdict.
        destruct (Z.ltb_spec used (maxRequests RATE_LIMIT)); [lia | done].
      * cbn [lookup list_lookup]. cbn in Hi.
        rewrite (IH _ used); [| by rewrite lookup_insert_eq | done | lia].
        by rewrite verdict_saturated by lia.
  - rewrite times_for_cons_ne in Hts, Hi by done.
    rewrite results_for_cons_ne by done.
    apply IH; [| done | done].
    by rewrite checkRateLimit_frame.
Qed.

(** From no entry: the first call for the key opens the window, and the
    [i]-th call of it (counting from 0) is answered by [verdict i]. *)
Lemma serve_new_window key t0 ts calls : ∀ m (i : nat),
  m !! key = None →
  times_for key calls = t0 :: ts →
  Forall (λ t, t ≤ t0 + windowMs RATE_LIMIT) ts →
  (i < length (t0 :: ts))%nat →
  results_for key (serve m calls).1 !! i
    = Some (verdict (Z.of_nat i) (t0 + windowMs RATE_LIMIT)).
Proof.
  induction calls as [|[ip now] calls IH]; intros m i Hm Hcalls Hts Hi; [done|].
  rewrite serve_cons. cbn [fst].
  destruct (decide (ip = key)) as [->|Hne].
  - rewrite times_for_cons_eq in Hcalls. injection Hcalls as -> Hrest.
    rewrite results_for_cons_eq.
    rewrite checkRateLimit_admits by (rewrite Hm; cbn; apply maxRequests_positive).
    rewrite Hm, window_entry_none. cbn [fst snd fresh_entry count resetTime].
    destruct i as [|i]; [done|].
    cbn [lookup list_lookup]. cbn in Hi.
    rewrite (serve_in_window key (t0 + windowMs RATE_LIMIT) calls _ (0 + 1));
      [| by rewrite lookup_insert_eq | by rewrite Hrest | rewrite Hrest; lia].
    do 2 f_equal. lia.
  - rewrite times_for_cons_ne in Hcalls by done.
    rewrite results_for_cons_ne by done.
    apply IH; [| done | done | done].
    by rewrite checkRateLimit_frame.
Qed.

(** Every call keeps all counts within the cap. *)
Lemma checkRateLimit_count_bounded ip now m :
  count_bounded m → count_bounded (checkRateLimit ip now m).2.
Proof.
  intros Hm key entry.
  assert (count (window_entry now (m !! ip)) ≤ maxRequests RATE_LIMIT) as Hw.
  { unfold window_entry. destruct (m !! ip) as [e|] eqn:He; [|done].
    destruct (now >? resetTime e); [done | by eapply Hm]. }
  destruct (Z.lt_ge_cases (count (window_entry now (m !! ip))) (maxRequests RATE_LIMIT))
    as [Hlt|Hge].
  - rewrite checkRateLimit_admits by done. cbn [snd].
    rewrite lookup_insert. case_decide.
    + intros [= <-]. cbn [count]. lia.
    + apply Hm.
  - rewrite checkRateLimit_denies by done. cbn [snd].
    rewrite lookup_insert. case_decide.
    + by intros [= <-].
    + apply Hm.
Qed.

Lemma reachable_count_bounded m : reachable m → count_bounded m.
Proof.
  induction 1 as [|ip now m _ IH].
  - intros key entry Hk. by rewrite lookup_empty in Hk.
  - by apply checkRateLimit_count_bounded.
Qed.

Lemma serve_app m (before after : list (string * Z)) :
  serve m (before ++ after)%list
  = (((serve m before).1 ++ (serve (serve m before).2 after).1)%list,
     (serve (serve m before).2 after).2).
Proof.
  revert m. induction before as [|[ip now] before IH]; intros m.
  { cbn. by destruct (serve m after). }
  cbn [app]. rewrite !serve_cons, IH. done.
Qed.

Lemma results_for_app key (rs1 rs2 : list (string * RateLimitResult)) :
  results_for key (rs1 ++ rs2)%list
  = (results_for key rs1 ++ results_for key rs2)%list.
Proof. unfold results_for. by rewrite filter_app, fmap_app. Qed.

Lemma times_for_app key (calls1 calls2 : list (string * Z)) :
  times_for key (calls1 ++ calls2)%list
  = (times_for key calls1 ++ times_for key calls2)%list.
Proof. unfold times_for. by rewrite filter_app, fmap_app. Qed.

Lemma length_results_for key (calls : list (string * Z)) : ∀ m,
  length (results_for key (serve m calls).1) = length (times_for key calls).
Proof.
  induction calls as [|[ip now] calls IH]; intros m; [done|].
  rewrite serve_cons. cbn [fst].
  destruct (decide (ip = key)) as [->|Hne].
  - rewrite results_for_cons_eq, times_for_cons_eq. cbn. by rewrite IH.
  - rewrite results_for_cons_ne, times_for_cons_ne by done. apply IH.
Qed.

(** The answer to a call is the entry of the run's results at its place. *)
Lemma serve_result_at key now m (before after : list (string * Z)) :
  results_for key (serve m (before ++ (key, now) :: after)%list).1
    !! length (times_for key before)
  = Some (checkRateLimit key now (serve m before).2).1.
Proof.
  rewrite serve_app. cbn [fst]. rewrite results_for_app, serve_cons. cbn [fst].
  rewrite results_for_cons_eq.
  rewrite <- (length_results_for key before m).
  by rewrite list_lookup_middle.
Qed.

(** The map stays reachable along a run. *)
Lemma serve_reachable calls : ∀ m, reachable m → reachable (serve m calls).2.
Proof.
  induction calls as [|[ip now] calls IH]; intros m Hm; [done|].
  rewrite serve_cons. cbn [snd]. by apply IH, reachable_call.
Qed.

End RateLimiter.

(** * Properties of the handler *)

Section Handler.
Implicit Types (host : Host) (req : VercelRequest).
Implicit Types (m : gmap string RateLimitEntry).

Lemma handler_not_POST host req m :
  method req ≠ Some "POST" →
  handler host req m =
    {| map_after := m; headers_set := [];
       completion := Responded 405 (error_body "Method not allowed");
       fetch_calls := []; console := [] |}.
Proof.
  intros Hm. unfold handler. by rewrite bool_decide_eq_false_2.
Qed.

Lemma handler_denied host req m :
  method req = Some "POST" →
  allowed (rate_check host req m) = false →
  handler host req m =
    let r := rate_check host req m in
    {| map_after := (checkRateLimit (clientIP req) (Date_now host) m).2;
       headers_set := [];
       completion :=
         match toISOString host (result_resetTime r) with
         | Throw e => Uncaught e
         | Normal resetDate =>
             Responded 429
               (JObj [("error", JStr "Rate limit exceeded");
                      ("message", JStr ("Too many requests. Rate limit resets at " ++ resetDate));
                      ("resetTime", JNum (inject_Z (result_resetTime r)))])
         end;
       fetch_calls := []; console := [] |}.
Proof.
  intros Hm Hdeny. unfold handler, rate_check in *.
  rewrite bool_decide_eq_true_2 by done. cbn [negb].
  destruct (checkRateLimit _ _ _) as [r m']. cbn [fst snd] in *.
  rewrite Hdeny. cbn [negb]. by destruct (toISOString _ _).
Qed.

(** Past the rate check, the headers are set and the map is the
    limiter's, however the rest of the pipeline goes. *)
Lemma handler_admitted host req m :
  method req = Some "POST" →
  allowed (rate_check host req m) = true →
  headers_set (handler host req m) = rate_limit_headers (rate_check host req m)
  ∧ map_after (handler host req m) = (checkRateLimit (clientIP req) (Date_now host) m).2
  ∧ ∃ status json, completion (handler host req m) = Responded status json.
Proof.
  intros Hm Hok. unfold handler, rate_check in *.
  rewrite bool_decide_eq_true_2 by done. cbn [negb].
  destruct (checkRateLimit _ _ _) as [r m']. cbn [fst snd] in *.
  rewrite Hok. cbn [negb].
  destruct (authorization _) as [auth|]; [|cbn; eauto].
  destruct (_ || _); [cbn; eauto|].
  destruct (negb (bool_decide _)); [cbn; eauto|].
  destruct (try_block host req) as [[[status json]|e] calls]; cbn; eauto.
Qed.


Lemma handler_POST_map host req m :
  method req = Some "POST" →
  map_after (handler host req m) = (checkRateLimit (clientIP req) (Date_now host) m).2.
Proof.
  intros Hm. destruct (allowed (rate_check host req m)) eqn:Hok.
  - by apply handler_admitted.
  - by rewrite handler_denied.
Qed.

Lemma substring_all (s : string) : String.substring 0 (String.length s) s = s.
Proof. induction s as [|c s IH]; [done|]. cbn. by rewrite IH. Qed.

(** The token that line 84 extracts from a header of the right scheme. *)
Lemma replace_Bearer (token : string) : replace "Bearer " "" ("Bearer " ++ token) = token.
Proof.
  change ("Bearer " ++ token)
    with (String "B" (String "e" (String "a" (String "r" (String "e"
           (String "r" (String " " token))))))).
  destruct token as [|c token]; cbn; [done|].
  by rewrite substring_all.
Qed.

Lemma prefix_Bearer (auth : string) :
  String.prefix "Bearer " auth = true → ∃ token, auth = "Bearer " ++ token.
Proof.
  intros Hp. apply String.prefix_correct in Hp. cbn [String.length] in Hp.
  exists (String.substring 7 (String.length auth - 7) auth).
  do 7 (destruct auth as [|? auth]; [discriminate Hp|]).
  cbn in Hp. injection Hp as -> -> -> -> -> -> ->.
  cbn. rewrite Nat.sub_0_r. by rewrite substring_all.
Qed.

Lemma prefix_Bearer_intro (token : string) :
  String.prefix "Bearer " ("Bearer " ++ token) = true.
Proof. by destruct token. Qed.

Lemma str_truthy_Bearer (token : string) :
  str_truthy (Some ("Bearer " ++ token)) = true.
Proof. reflexivity. Qed.

(** Behind the rate check and the authentication, the [try] block decides. *)
Lemma handler_authenticated host req m token :
  method req = Some "POST" →
  allowed (rate_check host req m) = true →
  authorization (headers req) = Some ("Bearer " ++ token) →
  BETA_API_KEY host = Some token →
  completion (handler host req m) =
    match (try_block host req).1 with
    | Normal (status, json) => Responded status json
    | Throw _ => Responded 500 (error_body "Failed to get response from AI")
    end
  ∧ fetch_calls (handler host req m) = (try_block host req).2.
Proof.
  intros Hm Hok Hauth Hkey. unfold handler, rate_check in *.
  rewrite bool_decide_eq_true_2 by done. cbn [negb].
  destruct (checkRateLimit _ _ _) as [r m']. cbn [fst snd] in *.
  rewrite Hok, Hauth, Hkey, replace_Bearer, str_truthy_Bearer, prefix_Bearer_intro.
  rewrite bool_decide_eq_true_2 by done. cbn [negb orb].
  by destruct (try_block host req) as [[[status json]|e] calls].
Qed.

(** Whoever makes a [fetch] call has passed every check before it. *)
Lemma fetch_calls_inv host req m :
  fetch_calls (handler host req m) ≠ [] →
  method req = Some "POST"
  ∧ allowed (rate_check host req m) = true
  ∧ (∃ token, authorization (headers req) = Some ("Bearer " ++ token)
              ∧ BETA_API_KEY host = Some token)
  ∧ ∃ message, getField (body req) "message" = Normal message
               ∧ truthy message = true
               ∧ fetch_calls (handler host req m) = [completion_request host message].
Proof.
  intros Hcalls.
  destruct (decide (method req = Some "POST")) as [Hm|Hm];
    [| by rewrite handler_not_POST in Hcalls].
  destruct (allowed (rate_check host req m)) eqn:Hok;
    [| by rewrite handler_denied in Hcalls].
  assert (∃ token, authorization (headers req) = Some ("Bearer " ++ token)
                   ∧ BETA_API_KEY host = Some token) as (token & Hauth & Hkey).
  { revert Hcalls. unfold handler, rate_check in *.
    rewrite bool_decide_eq_true_2 by done. cbn [negb].
    destruct (checkRateLimit _ _ _) as [r m']. cbn [fst snd] in *.
    rewrite Hok. cbn [negb].
    destruct (authorization _) as [auth|]; [|done].
    destruct (String.prefix "Bearer " auth) eqn:Hp;
      [| by rewrite orb_true_r].
    destruct (prefix_Bearer _ Hp) as [token ->].
    rewrite str_truthy_Bearer, replace_Bearer. cbn [negb orb].
    case_bool_decide as Hkey; [|done]. eauto. }
  split_and!; [done | done | by eauto |].
  destruct (handler_authenticated host req m token) as [_ Hf]; [done..|].
  rewrite Hf in Hcalls |- *. revert Hcalls. unfold try_block.
  destruct (getField (body req) "message") as [message|e]; [|done].
  destruct (truthy message) eqn:Ht; [|done].
  cbn. eauto.
Qed.

Lemma try_block_status host req status json :
  (try_block host req).1 = Normal (status, json) → status = 400 ∨ status = 200.
Proof.
  unfold try_block.
  destruct (getField (body req) "message") as [message|e]; [|done].
  destruct (truthy message); cbn; [| intros [= <- <-]; by left].
  destruct (fetch host _) as [[] status' [data|e]|e]; cbn; try done.
  unfold read_completion.
  destruct (first_choice_content data) as [aiResponse|e]; cbn; [|done].
  destruct (truthy aiResponse); cbn; [| done].
  intros [= <- <-]. by right.
Qed.

Lemma try_block_upstream_failure host req message :
  getField (body req) "message" = Normal message →
  truthy message = true →
  upstream_failure (fetch host (completion_request host message)) →
  ∃ e, (try_block host req).1 = Throw e
       ∧ (try_block host req).2 = [completion_request host message].
Proof.
  intros Hmsg Htruthy Hfail. unfold try_block. rewrite Hmsg, Htruthy.
  cbv zeta. cbn [negb fst snd].
  destruct Hfail as [status json | e | status e | status data e Hcontent
                     | status data v Hcontent Hv | status data v Hcontent Hv];
    cbn [negb]; [by eauto.. | | |];
    unfold read_completion; rewrite Hcontent; cbn [bind].
  - by eauto.
  - destruct Hv as [-> | ->]; cbn; eauto.
  - rewrite Hv. cbn. eauto.
Qed.

(** The failures are all there is besides a usable answer: every outcome
    of the upstream call is a failure or carries a truthy content. *)
Lemma upstream_failure_or_content (outcome : FetchOutcome) :
  upstream_failure outcome
  ∨ ∃ status data aiResponse,
      outcome = FetchResolved true status (JsonResolved data)
      ∧ first_choice_content data = Normal aiResponse
      ∧ truthy aiResponse = true.
Proof.
  destruct outcome as [[] status [data|e]|e];
    try (left; constructor; done).
  destruct (first_choice_content data) as [aiResponse|e] eqn:Hcontent;
    [| left; by eapply upstream_unreadable].
  destruct (truthy aiResponse) eqn:Htruthy.
  - right. by eexists status, data, aiResponse.
  - left. by eapply upstream_falsy_content.
Qed.

(** The handler changes the map through [checkRateLimit] only. *)
Lemma handler_reachable host req m :
  reachable m → reachable (map_after (handler host req m)).
Proof.
  intros Hm. destruct (decide (method req = Some "POST")) as [Hpost|Hpost].
  - rewrite handler_POST_map by done. by apply reachable_call.
  - by rewrite handler_not_POST.
Qed.

End Handler.

(** * The claims *)

Section Claims.
Implicit Types (host : Host) (req : VercelRequest).
Implicit Types (m : gmap string RateLimitEntry) (ip key : string).

(** C1, as the code has it.  A POST request that the limiter admits gets
    the three headers X-RateLimit-Limit, X-RateLimit-Remaining and
    X-RateLimit-Reset, holding the cap and the limiter's [remaining] and
    [resetTime], set before it is answered, and it is answered 200, 400, 401
    or 500.  A POST request that the limiter denies has none of them set,
    and it is answered 429 with the body { error: Rate limit exceeded,
    message: Too many requests. Rate limit resets at <ISO date>,
    resetTime } that carries the reset time instead, whenever that reset
    time is a valid time value of a Date (at most 8.64e15 ms from the
    epoch), as every reset time derived from Date.now() is. *)
Theorem rate_limit_headers_on_admitted host req m :
  method req = Some "POST" →
  (allowed (rate_check host req m) = true →
     headers_set (handler host req m) = rate_limit_headers (rate_check host req m)
     ∧ ∃ status json, completion (handler host req m) = Responded status json
                      ∧ status ∈ [200; 400; 401; 500])
  ∧ (allowed (rate_check host req m) = false →
     headers_set (handler host req m) = []
     ∧ (Z.abs (result_resetTime (rate_check host req m)) ≤ 8640000000000000 →
        completion (handler host req m)
        = Responded 429
            (JObj [("error", JStr "Rate limit exceeded");
                   ("message",
                    JStr ("Too many requests. Rate limit resets at "
                          ++ formatISO host (result_resetTime (rate_check host req m))));
                   ("resetTime",
                    JNum (inject_Z (result_resetTime (rate_check host req m))))]))).
Proof.
  intros Hm. split; intros Hok.
  2:{ rewrite handler_denied by done. cbn [headers_set completion].
      split; [done|]. intros Hvalid. unfold toISOString.
      destruct (Z.leb_spec (Z.abs (result_resetTime (rate_check host req m)))
                  8640000000000000); [done | lia]. }
  split; [by apply handler_admitted|].
  unfold handler, rate_check in *.
  rewrite bool_decide_eq_true_2 by done. cbn [negb].
  destruct (checkRateLimit _ _ _) as [r m']. cbn [fst snd] in *.
  rewrite Hok. cbn [negb].
  destruct (authorization _) as [auth|];
    [| eexists _, _; split; [done | set_solver]].
  destruct (_ || _); [eexists _, _; split; [done | set_solver] |].
  destruct (negb (bool_decide _)); [eexists _, _; split; [done | set_solver] |].
  destruct (try_block host req) as [[[status json]|e] calls] eqn:Htry; cbn.
  - eexists _, _; split; [done|].
    destruct (try_block_status host req status json) as [-> | ->];
      [by rewrite Htry | set_solver..].
  - eexists _, _; split; [done | set_solver].
Qed.

Lemma rate_limit_headers_on_admitted_witness :
  headers_set (handler sample_host sample_request ∅)
  = [("X-RateLimit-Limit", 100); ("X-RateLimit-Remaining", 99);
     ("X-RateLimit-Reset", 3600000)]
  ∧ headers_set (handler sample_host sample_request exhausted_map) = []
  ∧ completion (handler sample_host sample_request exhausted_map)
    = Responded 429
        (JObj [("error", JStr "Rate limit exceeded");
               ("message",
                JStr "Too many requests. Rate limit resets at 1970-01-01T01:00:00.000Z");
               ("resetTime", JNum (inject_Z 3600000))]).
Proof.
  split.
  - exact (proj1 (proj1 (rate_limit_headers_on_admitted sample_host sample_request ∅
                           eq_refl) eq_refl)).
  - destruct (rate_limit_headers_on_admitted sample_host sample_request exhausted_map)
      as [_ Hdenied]; [reflexivity|].
    destruct Hdenied as [Hnone H429]; [by vm_compute|].
    split; [exact Hnone|]. apply H429. by vm_compute.
Defined.

(** C1 as stated fails: the 101st POST request of a client within its
    window is answered 429 and no rate-limit header has been set. *)
Lemma denied_request_gets_no_headers :
  reachable exhausted_map
  ∧ method sample_request = Some "POST"
  ∧ completion (handler sample_host sample_request exhausted_map)
    = Responded 429
        (JObj [("error", JStr "Rate limit exceeded");
               ("message", JStr "Too many requests. Rate limit resets at 1970-01-01T01:00:00.000Z");
               ("resetTime", JNum (inject_Z 3600000))])
  ∧ header_set "X-RateLimit-Limit" (handler sample_host sample_request exhausted_map) = false
  ∧ header_set "X-RateLimit-Remaining" (handler sample_host sample_request exhausted_map) = false
  ∧ header_set "X-RateLimit-Reset" (handler sample_host sample_request exhausted_map) = false.
Proof.
  split; [apply serve_reachable, reachable_start | by vm_compute].
Qed.


(** C2.  From a map with no entry for [key], let the calls for [key] in a
    run come at [t0 :: ts], none of [ts] later than the reset time
    [t0 + windowMs] of the window that the first of them opens (calls for
    other keys may come in between).  Then for every N ≤ maxRequests the
    N-th call for [key] returns allowed = true with
    remaining = maxRequests - N; the (maxRequests+1)-th returns
    allowed = false; and a POST request of that client for which the
    handler makes that (maxRequests+1)-th call is answered 429. *)
Theorem quota_within_window key m (calls : list (string * Z)) t0 ts :
  m !! key = None →
  times_for key calls = t0 :: ts →
  Forall (λ t, t ≤ t0 + windowMs RATE_LIMIT) ts →
  (∀ N : nat,
     (1 ≤ N)%nat → Z.of_nat N ≤ maxRequests RATE_LIMIT → (N ≤ length (t0 :: ts))%nat →
     results_for key (serve m calls).1 !! (N - 1)%nat
     = Some {| allowed := true;
               remaining := maxRequests RATE_LIMIT - Z.of_nat N;
               result_resetTime := t0 + windowMs RATE_LIMIT |})
  ∧ ((Z.to_nat (maxRequests RATE_LIMIT) < length (t0 :: ts))%nat →
     results_for key (serve m calls).1 !! Z.to_nat (maxRequests RATE_LIMIT)
     = Some {| allowed := false; remaining := 0;
               result_resetTime := t0 + windowMs RATE_LIMIT |})
  ∧ (∀ host req before after,
       calls = (before ++ (key, Date_now host) :: after)%list →
       length (times_for key before) = Z.to_nat (maxRequests RATE_LIMIT) →
       method req = Some "POST" →
       clientIP req = key →
       Z.abs (t0 + windowMs RATE_LIMIT) ≤ 8640000000000000 →
       completion (handler host req (serve m before).2)
       = Responded 429
           (JObj [("error", JStr "Rate limit exceeded");
                  ("message",
                   JStr ("Too many requests. Rate limit resets at "
                         ++ formatISO host (t0 + windowMs RATE_LIMIT)));
                  ("resetTime", JNum (inject_Z (t0 + windowMs RATE_LIMIT)))])).
Proof.
  intros Hm Hcalls Hts.
  pose proof maxRequests_positive as Hpos.
  assert (∀ i : nat, (i < length (t0 :: ts))%nat →
            results_for key (serve m calls).1 !! i
            = Some (verdict (Z.of_nat i) (t0 + windowMs RATE_LIMIT))) as Hrun.
  { intros i Hi. by eapply serve_new_window. }
  assert ((Z.to_nat (maxRequests RATE_LIMIT) < length (t0 :: ts))%nat →
          results_for key (serve m calls).1 !! Z.to_nat (maxRequests RATE_LIMIT)
          = Some {| allowed := false; remaining := 0;
                    result_resetTime := t0 + windowMs RATE_LIMIT |}) as Hlast.
  { intros Hlen. rewrite Hrun by done. unfold verdict.
    destruct (Z.ltb_spec (Z.of_nat (Z.to_nat (maxRequests RATE_LIMIT)))
                (maxRequests RATE_LIMIT)); [lia | done]. }
  split_and!; [| done |].
  - intros N HN Hcap Hlen. rewrite Hrun by lia. unfold verdict.
    destruct (Z.ltb_spec (Z.of_nat (N - 1)) (maxRequests RATE_LIMIT)); [| lia].
    do 2 f_equal. lia.
  - intros host req before after -> Hbefore Hpost Hip Hdate.
    assert (rate_check host req (serve m before).2
            = {| allowed := false; remaining := 0;
                 result_resetTime := t0 + windowMs RATE_LIMIT |}) as Hcheck.
    { unfold rate_check. rewrite Hip.
      pose proof (serve_result_at key (Date_now host) m before after) as Hat.
      rewrite Hbefore, Hlast in Hat; [by injection Hat|].
      rewrite <- Hcalls, times_for_app, times_for_cons_eq, length_app, Hbefore.
      cbn. lia. }
    rewrite handler_denied by (by rewrite ?Hcheck). cbn [completion].
    rewrite Hcheck. cbn [result_resetTime]. unfold toISOString.
    destruct (Z.leb_spec (Z.abs (t0 + windowMs RATE_LIMIT)) 8640000000000000);
      [done | lia].
Qed.

Lemma quota_within_window_witness :
  results_for "192.168.1.2" (serve ∅ hundred_and_one_calls).1 !! 99%nat
  = Some {| allowed := true; remaining := 0; result_resetTime := 3600005 |}
  ∧ results_for "192.168.1.2" (serve ∅ hundred_and_one_calls).1 !! 100%nat
  = Some {| allowed := false; remaining := 0; result_resetTime := 3600005 |}.
Proof.
  destruct (quota_within_window "192.168.1.2" ∅ hundred_and_one_calls 5
              (replicate 100 5)) as (Hn & Hlast & _).
  - reflexivity.
  - reflexivity.
  - apply Forall_replicate. cbn. lia.
  - split.
    + apply (Hn 100%nat); cbn; lia.
    + apply Hlast. cbn. lia.
Defined.


(** C3.  When the stored entry's resetTime is in the past relative to now
    (whatever its count, so also one that was being denied), the call works
    on a fresh entry with count = 0 and resetTime = now + windowMs, is
    admitted as request #1 of the new window (allowed = true,
    remaining = maxRequests - 1) and stores that entry with count 1 in
    place of the old one.  The replacement is lazy: however many calls for
    other keys are served, the stale entry stays as it is. *)
Theorem expired_entry_replaced_on_next_call ip now m entry :
  m !! ip = Some entry →
  resetTime entry < now →
  window_entry now (m !! ip)
    = {| count := 0; resetTime := now + windowMs RATE_LIMIT |}
  ∧ checkRateLimit ip now m
    = ({| allowed := true;
          remaining := maxRequests RATE_LIMIT - 1;
          result_resetTime := now + windowMs RATE_LIMIT |},
       <[ip := {| count := 1; resetTime := now + windowMs RATE_LIMIT |}]> m)
  ∧ (∀ calls : list (string * Z),
       times_for ip calls = [] → (serve m calls).2 !! ip = Some entry).
Proof.
  intros Hm Hpast. split_and!.
  - rewrite Hm. by apply window_entry_expired.
  - rewrite checkRateLimit_admits;
      rewrite Hm, window_entry_expired by done; [done|].
    apply maxRequests_positive.
  - intros calls Hnone. by rewrite serve_frame.
Qed.

Lemma expired_entry_replaced_on_next_call_witness :
  checkRateLimit "192.168.1.2" 3600001 exhausted_map
  = ({| allowed := true; remaining := 99; result_resetTime := 7200001 |},
     <["192.168.1.2" := {| count := 1; resetTime := 7200001 |}]> exhausted_map).
Proof.
  refine (proj1 (proj2 (expired_entry_replaced_on_next_call "192.168.1.2" 3600001
                          exhausted_map {| count := 100; resetTime := 3600000 |} _ _))).
  - by vm_compute.
  - reflexivity.
Defined.

(** C4.  In every state of the map reachable from the empty map by
    checkRateLimit calls, every entry has count ≤ maxRequests (in
    particular while now ≤ resetTime), and every further call keeps it so. *)
Theorem count_never_exceeds_maxRequests m :
  reachable m →
  (∀ key entry now,
     m !! key = Some entry → now ≤ resetTime entry →
     count entry ≤ maxRequests RATE_LIMIT)
  ∧ (∀ ip now, count_bounded (checkRateLimit ip now m).2).
Proof.
  intros Hreach. pose proof (reachable_count_bounded m Hreach) as Hinv. split.
  - intros key entry now Hkey _. by eapply Hinv.
  - intros ip now. by apply checkRateLimit_count_bounded.
Qed.

Lemma count_never_exceeds_maxRequests_witness :
  count_bounded (checkRateLimit "10.0.0.1" 7 (checkRateLimit "192.168.1.2" 0 ∅).2).2.
Proof.
  apply (count_never_exceeds_maxRequests (checkRateLimit "192.168.1.2" 0 ∅).2).
  apply reachable_call, reachable_start.
Defined.

(** C5.  A call that denies leaves the map as it was: the entry of the key
    is the one that was stored, count and resetTime untouched, and the
    returned remaining is 0. *)
Theorem denial_leaves_entry_unchanged ip now m :
  allowed (checkRateLimit ip now m).1 = false →
  (checkRateLimit ip now m).2 = m
  ∧ remaining (checkRateLimit ip now m).1 = 0
  ∧ ∃ entry, m !! ip = Some entry
             ∧ (checkRateLimit ip now m).2 !! ip = Some entry
             ∧ result_resetTime (checkRateLimit ip now m).1 = resetTime entry.
Proof.
  intros Hdeny.
  destruct (Z.lt_ge_cases (count (window_entry now (m !! ip))) (maxRequests RATE_LIMIT))
    as [Hlt|Hge].
  { by rewrite checkRateLimit_admits in Hdeny. }
  rewrite checkRateLimit_denies by done. cbn [fst snd remaining result_resetTime].
  pose proof maxRequests_positive as Hpos.
  destruct (m !! ip) as [entry|] eqn:Hm; [| cbn in Hge; lia].
  destruct (Z.lt_ge_cases (resetTime entry) now) as [Hpast|Hlive].
  { rewrite window_entry_expired in Hge by done. cbn in Hge. lia. }
  rewrite window_entry_live by lia.
  rewrite insert_id by done.
  split_and!; [done..|]. exists entry. by rewrite Hm.
Qed.

Lemma denial_leaves_entry_unchanged_witness :
  (checkRateLimit "192.168.1.2" 5 exhausted_map).2 = exhausted_map
  ∧ remaining (checkRateLimit "192.168.1.2" 5 exhausted_map).1 = 0.
Proof.
  destruct (denial_leaves_entry_unchanged "192.168.1.2" 5 exhausted_map)
    as (Hmap & Hrem & _).
  - by vm_compute.
  - by split.
Defined.

(** C6.  For a request that reaches the upstream call, every failure of
    that call ends in the same response: an upstream non-ok status, an
    exception from the upstream call (from fetch itself or from reading the
    response body), decoded data whose content cannot be read, and an
    upstream success whose first choice's message content is absent, null
    or otherwise falsy all give status 500 with body { error: Failed to
    get response from AI }, under the rate-limit headers that the rate check
    decided; nothing in the response tells which failure it was.  (By
    [upstream_failure_or_content] these are all the outcomes that do not
    carry a usable content.) *)
Theorem upstream_failures_look_alike host req m :
  fetch_calls (handler host req m) ≠ [] →
  (∀ call, call ∈ fetch_calls (handler host req m) → upstream_failure (fetch host call)) →
  completion (handler host req m)
    = Responded 500 (JObj [("error", JStr "Failed to get response from AI")])
  ∧ headers_set (handler host req m) = rate_limit_headers (rate_check host req m).
Proof.
  intros Hreached Hfail.
  destruct (fetch_calls_inv host req m Hreached)
    as (Hpost & Hok & (token & Hauth & Hkey) & message & Hmsg & Htruthy & Hcalls).
  split; [| by apply handler_admitted].
  destruct (try_block_upstream_failure host req message) as (e & Hthrow & _);
    [done | done | apply Hfail; rewrite Hcalls; set_solver |].
  destruct (handler_authenticated host req m token) as [-> _]; [done..|].
  by rewrite Hthrow.
Qed.

Lemma upstream_failures_look_alike_witness :
  Forall
    (λ upstream,
       completion (handler (with_fetch upstream sample_host) sample_request ∅)
       = Responded 500 (JObj [("error", JStr "Failed to get response from AI")]))
    [upstream_status_401; upstream_network_error; upstream_broken_body;
     upstream_without_choices; upstream_null_content; upstream_no_choices;
     upstream_empty_content].
Proof.
  repeat apply Forall_cons_2; [.. | apply Forall_nil_2].
  - apply (upstream_failures_look_alike (with_fetch upstream_status_401 sample_host)).
    + by vm_compute.
    + intros call _. apply upstream_not_ok.
  - apply (upstream_failures_look_alike (with_fetch upstream_network_error sample_host)).
    + by vm_compute.
    + intros call _. apply upstream_exception.
  - apply (upstream_failures_look_alike (with_fetch upstream_broken_body sample_host)).
    + by vm_compute.
    + intros call _. apply upstream_body_exception.
  - apply (upstream_failures_look_alike (with_fetch upstream_without_choices sample_host)).
    + by vm_compute.
    + intros call _. by apply (upstream_unreadable _ _ TypeError).
  - apply (upstream_failures_look_alike (with_fetch upstream_null_content sample_host)).
    + by vm_compute.
    + intros call _. by apply (upstream_no_content _ _ JNull); [| right].
  - apply (upstream_failures_look_alike (with_fetch upstream_no_choices sample_host)).
    + by vm_compute.
    + intros call _. by apply (upstream_no_content _ _ JUndefined); [| left].
  - apply (upstream_failures_look_alike (with_fetch upstream_empty_content sample_host)).
    + by vm_compute.
    + intros call _. by apply (upstream_falsy_content _ _ (JStr "")).
Defined.

(** C7.  For a POST request that passes the rate check: an absent
    authorization header and one that does not start with the Bearer scheme
    both give 401 with body { error: Authorization header required }; a
    header Bearer <token> whose token is not the configured secret gives
    401 with body { error: Invalid API key }. *)
Theorem authorization_failures host req m :
  method req = Some "POST" →
  allowed (rate_check host req m) = true →
  (authorization (headers req) = None
   ∨ (∃ auth, authorization (headers req) = Some auth
              ∧ String.prefix "Bearer " auth = false) →
   completion (handler host req m)
     = Responded 401 (JObj [("error", JStr "Authorization header required")]))
  ∧ (∀ token,
       authorization (headers req) = Some ("Bearer " ++ token) →
       BETA_API_KEY host ≠ Some token →
       completion (handler host req m)
         = Responded 401 (JObj [("error", JStr "Invalid API key")])).
Proof.
  intros Hpost Hok. unfold handler, rate_check in *.
  rewrite bool_decide_eq_true_2 by done. cbn [negb].
  destruct (checkRateLimit _ _ _) as [r m']. cbn [fst snd] in *.
  rewrite Hok. cbn [negb]. split.
  - intros [-> | (auth & -> & Hscheme)]; [done|].
    rewrite Hscheme. by rewrite orb_true_r.
  - intros token -> Hkey.
    rewrite str_truthy_Bearer, prefix_Bearer_intro, replace_Bearer. cbn [negb orb].
    by rewrite bool_decide_eq_false_2.
Qed.

Lemma authorization_failures_witness :
  completion (handler sample_host (with_authorization None sample_request) ∅)
    = Responded 401 (JObj [("error", JStr "Authorization header required")])
  ∧ completion (handler sample_host
                  (with_authorization (Some "InvalidFormat test-key") sample_request) ∅)
    = Responded 401 (JObj [("error", JStr "Authorization header required")])
  ∧ completion (handler sample_host
                  (with_authorization (Some "Bearer invalid-key") sample_request) ∅)
    = Responded 401 (JObj [("error", JStr "Invalid API key")]).
Proof.
  split_and!.
  - apply (authorization_failures sample_host (with_authorization None sample_request) ∅);
      [reflexivity | reflexivity |]. by left.
  - apply (authorization_failures sample_host
             (with_authorization (Some "InvalidFormat test-key") sample_request) ∅);
      [reflexivity | reflexivity |]. right. by eexists.
  - refine (proj2 (authorization_failures sample_host
                     (with_authorization (Some "Bearer invalid-key") sample_request) ∅
                     _ _) "invalid-key" _ _);
      [reflexivity | reflexivity | reflexivity | discriminate].
Defined.

(** Where the body can be read: for an authenticated POST request that
    passes the rate check and whose body has no message field, or has the
    empty string there, the handler answers 400 with body
    { error: Message is required } and makes no fetch call. *)
Theorem missing_message_rejected host req m token :
  method req = Some "POST" →
  allowed (rate_check host req m) = true →
  authorization (headers req) = Some ("Bearer " ++ token) →
  BETA_API_KEY host = Some token →
  getField (body req) "message" = Normal JUndefined
  ∨ getField (body req) "message" = Normal (JStr "") →
  completion (handler host req m)
    = Responded 400 (JObj [("error", JStr "Message is required")])
  ∧ fetch_calls (handler host req m) = [].
Proof.
  intros Hpost Hok Hauth Hkey Hmsg.
  destruct (handler_authenticated host req m token) as [-> ->]; [done..|].
  unfold try_block. by destruct Hmsg as [-> | ->].
Qed.

Lemma missing_message_rejected_witness :
  (completion (handler sample_host (with_body (JObj []) sample_request) ∅)
     = Responded 400 (JObj [("error", JStr "Message is required")])
   ∧ fetch_calls (handler sample_host (with_body (JObj []) sample_request) ∅) = [])
  ∧ (completion (handler sample_host
                   (with_body (JObj [("message", JStr "")]) sample_request) ∅)
     = Responded 400 (JObj [("error", JStr "Message is required")])
     ∧ fetch_calls (handler sample_host
                      (with_body (JObj [("message", JStr "")]) sample_request) ∅) = []).
Proof.
  split.
  - apply (missing_message_rejected sample_host (with_body (JObj []) sample_request) ∅
             "test-api-key-123"); try reflexivity. by left.
  - apply (missing_message_rejected sample_host
             (with_body (JObj [("message", JStr "")]) sample_request) ∅
             "test-api-key-123"); try reflexivity. by right.
Defined.

(** C8, at the input where the code departs from it.  The first request of
    a client, a POST with the configured key in its authorization header
    and no body at all (req.body undefined), is authenticated, within its
    quota and has no message field; it is answered 500 with body
    { error: Failed to get response from AI }, not 400 with body
    { error: Message is required }, because reading message from the
    missing body throws inside the try block.  No fetch call is made. *)
Theorem bodyless_request_is_answered_500_not_400 :
  method (with_body JUndefined sample_request) = Some "POST"
  ∧ allowed (rate_check sample_host (with_body JUndefined sample_request) ∅) = true
  ∧ authorization (headers (with_body JUndefined sample_request))
    = Some ("Bearer " ++ "test-api-key-123")
  ∧ BETA_API_KEY sample_host = Some "test-api-key-123"
  ∧ body (with_body JUndefined sample_request) = JUndefined
  ∧ getField (body (with_body JUndefined sample_request)) "message" = Throw TypeError
  ∧ completion (handler sample_host (with_body JUndefined sample_request) ∅)
    = Responded 500 (JObj [("error", JStr "Failed to get response from AI")])
  ∧ completion (handler sample_host (with_body JUndefined sample_request) ∅)
    ≠ Responded 400 (JObj [("error", JStr "Message is required")])
  ∧ fetch_calls (handler sample_host (with_body JUndefined sample_request) ∅) = [].
Proof.
  split_and!; try reflexivity.
  assert (completion (handler sample_host (with_body JUndefined sample_request) ∅)
          = Responded 500 (JObj [("error", JStr "Failed to get response from AI")]))
    as -> by reflexivity.
  discriminate.
Qed.

(** C9.  A call at now equal to the stored entry's resetTime does not start
    a new window: it works on the stored entry, reports its resetTime, is
    admitted exactly when its count is below the cap, and stores the entry
    with the same resetTime and the count kept (plus one if admitted); the
    window rolls over only when now > resetTime. *)
Theorem no_rollover_at_resetTime ip m entry :
  m !! ip = Some entry →
  window_entry (resetTime entry) (m !! ip) = entry
  ∧ allowed (checkRateLimit ip (resetTime entry) m).1
    = (count entry <? maxRequests RATE_LIMIT)
  ∧ result_resetTime (checkRateLimit ip (resetTime entry) m).1 = resetTime entry
  ∧ (checkRateLimit ip (resetTime entry) m).2 !! ip
    = Some {| count := if count entry <? maxRequests RATE_LIMIT
                       then count entry + 1 else count entry;
              resetTime := resetTime entry |}
  ∧ (checkRateLimit ip (resetTime entry) m).2 !! ip
    ≠ Some {| count := 1; resetTime := resetTime entry + windowMs RATE_LIMIT |}.
Proof.
  intros Hm.
  assert (window_entry (resetTime entry) (m !! ip) = entry) as Hw.
  { rewrite Hm. by apply window_entry_live. }
  pose proof windowMs_positive as Hwin.
  split; [done|].
  destruct (Z.ltb_spec (count entry) (maxRequests RATE_LIMIT)) as [Hlt|Hge].
  - rewrite checkRateLimit_admits by (by rewrite Hw). rewrite Hw.
    cbn [fst snd allowed result_resetTime]. rewrite lookup_insert_eq.
    split_and!; [done..|]. intros [= _ Hreset]. lia.
  - rewrite checkRateLimit_denies by (by rewrite Hw). rewrite Hw.
    cbn [fst snd allowed result_resetTime]. rewrite lookup_insert_eq.
    split_and!; [done | done | by destruct entry |].
    intros [= Heq]. apply (f_equal resetTime) in Heq. cbn [resetTime] in Heq. lia.
Qed.

Lemma no_rollover_at_resetTime_witness :
  allowed (checkRateLimit "192.168.1.2" 3600000 exhausted_map).1 = false
  ∧ (checkRateLimit "192.168.1.2" 3600000 exhausted_map).2 !! "192.168.1.2"
    = Some {| count := 100; resetTime := 3600000 |}.
Proof.
  destruct (no_rollover_at_resetTime "192.168.1.2" exhausted_map
              {| count := 100; resetTime := 3600000 |}) as (_ & Hdeny & _ & Hkept & _).
  - by vm_compute.
  - split; [exact Hdeny | exact Hkept].
Defined.


(** C10.  A request whose method is not POST is answered 405 with body
    { error: Method not allowed }; the rate-limit map is left exactly as it
    was, no rate-limit header is set and nothing is fetched. *)
Theorem non_POST_has_no_effect host req m :
  method req ≠ Some "POST" →
  completion (handler host req m)
    = Responded 405 (JObj [("error", JStr "Method not allowed")])
  ∧ map_after (handler host req m) = m
  ∧ headers_set (handler host req m) = []
  ∧ fetch_calls (handler host req m) = [].
Proof. intros Hmethod. by rewrite handler_not_POST. Qed.

Lemma non_POST_has_no_effect_witness :
  completion (handler sample_host (with_method (Some "GET") sample_request) exhausted_map)
    = Responded 405 (JObj [("error", JStr "Method not allowed")])
  ∧ map_after (handler sample_host (with_method (Some "GET") sample_request) exhausted_map)
    = exhausted_map.
Proof.
  destruct (non_POST_has_no_effect sample_host (with_method (Some "GET") sample_request)
              exhausted_map) as (Hresp & Hmap & _).
  - discriminate.
  - by split.
Defined.

End Claims.

(** * Further properties of the rate limiter *)

Section RateLimiterExtras.
Implicit Types (m : gmap string RateLimitEntry) (ip key : string).
Implicit Types (now : Z) (entry : RateLimitEntry) (calls : list (string * Z)).

(** What a call answers, and the entry it leaves for its key, depend on
    the map through that key's entry only. *)
Lemma checkRateLimit_local ip now m m' :
  m !! ip = m' !! ip →
  (checkRateLimit ip now m).1 = (checkRateLimit ip now m').1
  ∧ (checkRateLimit ip now m).2 !! ip = (checkRateLimit ip now m').2 !! ip.
Proof.
  intros Heq. unfold checkRateLimit. rewrite Heq.
  destruct (_ >=? _); cbn [fst snd]; by rewrite !lookup_insert_eq.
Qed.

Lemma results_for_none key calls : ∀ m,
  times_for key calls = [] → results_for key (serve m calls).1 = [].
Proof.
  induction calls as [|[ip now] calls IH]; intros m Hnone; [done|].
  rewrite serve_cons. cbn [fst].
  destruct (decide (ip = key)) as [->|Hne].
  - by rewrite times_for_cons_eq in Hnone.
  - rewrite times_for_cons_ne in Hnone by done.
    rewrite results_for_cons_ne by done. by apply IH.
Qed.

(** The entry a call works on has a resetTime that is not in the past. *)
Lemma window_entry_not_expired now (stored : option RateLimitEntry) :
  now ≤ resetTime (window_entry now stored).
Proof.
  pose proof windowMs_positive as Hwin. unfold window_entry.
  destruct stored as [entry|]; [|cbn; lia].
  destruct (Z.gtb_spec now (resetTime entry)); [cbn; lia | lia].
Qed.

(** X1.  No call ever removes a key: after a run, the keys of the map are
    the keys it had before together with every client the run has seen. *)
Theorem keys_are_never_evicted calls : ∀ m,
  dom (serve m calls).2 = dom m ∪ list_to_set calls.*1.
Proof.
  induction calls as [|[ip now] calls IH]; intros m.
  { cbn. by rewrite union_empty_r_L. }
  rewrite serve_cons. cbn [snd]. rewrite IH.
  assert (dom (checkRateLimit ip now m).2 = {[ip]} ∪ dom m) as ->.
  { unfold checkRateLimit. destruct (_ >=? _); cbn [snd]; apply dom_insert_L. }
  cbn [fmap list_fmap fst list_to_set].
  rewrite (union_comm_L {[ip]} (dom m)). by rewrite (assoc_L (∪)).
Qed.

(** X2.  After every call the key has an entry, and the result describes
    it: the reported resetTime is the entry's; an admitted call reports
    remaining = maxRequests - count for the count now stored; a denied call
    reports 0 and the stored count has reached maxRequests. *)
Theorem result_describes_stored_entry ip now m :
  ∃ entry,
    (checkRateLimit ip now m).2 !! ip = Some entry
    ∧ result_resetTime (checkRateLimit ip now m).1 = resetTime entry
    ∧ if allowed (checkRateLimit ip now m).1
      then remaining (checkRateLimit ip now m).1 = maxRequests RATE_LIMIT - count entry
           ∧ count entry ≤ maxRequests RATE_LIMIT
      else remaining (checkRateLimit ip now m).1 = 0
           ∧ maxRequests RATE_LIMIT ≤ count entry.
Proof.
  destruct (Z.lt_ge_cases (count (window_entry now (m !! ip))) (maxRequests RATE_LIMIT))
    as [Hlt|Hge].
  - rewrite checkRateLimit_admits by done. cbn [fst snd].
    eexists. rewrite lookup_insert_eq. split; [done|].
    cbn [allowed remaining result_resetTime count resetTime]. split; [done|]. lia.
  - rewrite checkRateLimit_denies by done. cbn [fst snd].
    eexists. rewrite lookup_insert_eq. split; [done|].
    cbn [allowed remaining result_resetTime count resetTime]. split; [done|]. lia.
Qed.

(** X3.  The resetTime a call reports is never earlier than the time of
    the call, and it is now + windowMs exactly when the call opens a new
    window (no entry for the key, or now > the stored resetTime). *)
Theorem reported_reset_is_not_past ip now m :
  now ≤ result_resetTime (checkRateLimit ip now m).1
  ∧ (m !! ip = None → result_resetTime (checkRateLimit ip now m).1 = now + windowMs RATE_LIMIT)
  ∧ (∀ entry, m !! ip = Some entry →
       result_resetTime (checkRateLimit ip now m).1
       = if now >? resetTime entry then now + windowMs RATE_LIMIT else resetTime entry).
Proof.
  assert (result_resetTime (checkRateLimit ip now m).1
          = resetTime (window_entry now (m !! ip))) as ->.
  { unfold checkRateLimit. by destruct (_ >=? _). }
  split_and!.
  - apply window_entry_not_expired.
  - by intros ->.
  - intros entry ->. cbn. by destruct (now >? resetTime entry).
Qed.

Lemma window_entry_count_nonneg now (stored : option RateLimitEntry) :
  (∀ entry, stored = Some entry → 1 ≤ count entry) →
  0 ≤ count (window_entry now stored).
Proof.
  intros Hpos. unfold window_entry. destruct stored as [entry|]; [|done].
  destruct (now >? resetTime entry); [done|].
  specialize (Hpos entry eq_refl). lia.
Qed.

Lemma checkRateLimit_count_positive ip now m :
  (∀ key entry, m !! key = Some entry → 1 ≤ count entry) →
  ∀ key entry, (checkRateLimit ip now m).2 !! key = Some entry → 1 ≤ count entry.
Proof.
  intros Hm key entry.
  pose proof (window_entry_count_nonneg now (m !! ip) (Hm ip)) as Hw.
  pose proof maxRequests_positive as Hpos.
  destruct (Z.lt_ge_cases (count (window_entry now (m !! ip))) (maxRequests RATE_LIMIT))
    as [Hlt|Hge].
  - rewrite checkRateLimit_admits by done. cbn [snd].
    rewrite lookup_insert. case_decide.
    + intros [= <-]. cbn [count]. lia.
    + apply Hm.
  - rewrite checkRateLimit_denies by done. cbn [snd].
    rewrite lookup_insert. case_decide.
    + intros [= <-]. lia.
    + apply Hm.
Qed.

Lemma reachable_count_positive m :
  reachable m → ∀ key entry, m !! key = Some entry → 1 ≤ count entry.
Proof.
  induction 1 as [|ip now m _ IH].
  - intros key entry Hk. by rewrite lookup_empty in Hk.
  - by apply checkRateLimit_count_positive.
Qed.

(** X4.  In every reachable map no entry is stored with a count below 1
    (an entry is created by a call that counts itself), and the remaining
    quota a call reports lies between 0 and maxRequests - 1. *)
Theorem stored_counts_and_remaining_in_range m :
  reachable m →
  (∀ key entry, m !! key = Some entry → 1 ≤ count entry)
  ∧ (∀ ip now, 0 ≤ remaining (checkRateLimit ip now m).1 ≤ maxRequests RATE_LIMIT - 1).
Proof.
  intros Hreach. pose proof (reachable_count_positive m Hreach) as Hinv.
  split; [done|]. intros ip now.
  pose proof (window_entry_count_nonneg now (m !! ip) (Hinv ip)) as Hw.
  pose proof maxRequests_positive as Hpos.
  destruct (Z.lt_ge_cases (count (window_entry now (m !! ip))) (maxRequests RATE_LIMIT))
    as [Hlt|Hge].
  - rewrite checkRateLimit_admits by done. cbn [fst remaining]. lia.
  - rewrite checkRateLimit_denies by done. cbn [fst remaining]. lia.
Qed.

Lemma stored_counts_and_remaining_in_range_witness :
  0 ≤ remaining (checkRateLimit "192.168.1.2" 5 exhausted_map).1
    ≤ maxRequests RATE_LIMIT - 1.
Proof.
  apply (stored_counts_and_remaining_in_range exhausted_map).
  apply serve_reachable, reachable_start.
Defined.

Lemma checkRateLimit_stored_reset ip now m :
  ∃ entry, (checkRateLimit ip now m).2 !! ip = Some entry
           ∧ resetTime entry = result_resetTime (checkRateLimit ip now m).1.
Proof.
  unfold checkRateLimit. destruct (_ >=? _); cbn [fst snd];
    rewrite lookup_insert_eq; by eexists.
Qed.

(** X5.  The resetTime a call reports is honest: whatever the call
    answered, and whatever calls for other keys are served meanwhile, the
    next call for the key made after that time is admitted as request #1 of
    a new window. *)
Theorem call_after_reported_reset_is_admitted ip now now' m calls :
  times_for ip calls = [] →
  result_resetTime (checkRateLimit ip now m).1 < now' →
  (checkRateLimit ip now' (serve (checkRateLimit ip now m).2 calls).2).1
  = {| allowed := true;
       remaining := maxRequests RATE_LIMIT - 1;
       result_resetTime := now' + windowMs RATE_LIMIT |}.
Proof.
  intros Hothers Hlater.
  destruct (checkRateLimit_stored_reset ip now m) as (entry & Hstored & Hreset).
  assert (window_entry now' ((serve (checkRateLimit ip now m).2 calls).2 !! ip)
          = fresh_entry now') as Hfresh.
  { rewrite serve_frame, Hstored by done. apply window_entry_expired. lia. }
  rewrite checkRateLimit_admits; rewrite Hfresh; [done|].
  apply maxRequests_positive.
Qed.

Lemma call_after_reported_reset_is_admitted_witness :
  (checkRateLimit "192.168.1.2" 3600001
     (serve (checkRateLimit "192.168.1.2" 5 exhausted_map).2 [("10.0.0.1", 9)]).2).1
  = {| allowed := true; remaining := 99; result_resetTime := 7200001 |}.
Proof.
  apply (call_after_reported_reset_is_admitted "192.168.1.2" 5 3600001 exhausted_map
           [("10.0.0.1", 9)]).
  - reflexivity.
  - by vm_compute.
Defined.

(** X6.  Clients are isolated: what the calls of one key are answered
    depends only on that key's entry at the start and on the times of its
    own calls, not on the calls made for other keys in between or on the
    rest of the map. *)
Theorem clients_are_isolated key calls : ∀ calls' m m',
  m !! key = m' !! key →
  times_for key calls = times_for key calls' →
  results_for key (serve m calls).1 = results_for key (serve m' calls').1.
Proof.
  induction calls as [|[ip now] calls IH]; intros calls' m m' Hm Htimes.
  { cbn. symmetry. by apply results_for_none. }
  rewrite serve_cons. cbn [fst].
  destruct (decide (ip = key)) as [->|Hne].
  - rewrite times_for_cons_eq in Htimes. rewrite results_for_cons_eq.
    revert m' Hm. induction calls' as [|[ip' now'] calls' IH']; intros m' Hm; [done|].
    rewrite serve_cons. cbn [fst].
    destruct (decide (ip' = key)) as [->|Hne'].
    + rewrite times_for_cons_eq in Htimes. injection Htimes as <- Htimes.
      rewrite results_for_cons_eq.
      destruct (checkRateLimit_local key now m m' Hm) as [-> Hafter].
      f_equal. by apply IH.
    + rewrite times_for_cons_ne in Htimes by done.
      rewrite results_for_cons_ne by done.
      apply IH'; [done|]. by rewrite checkRateLimit_frame.
  - rewrite times_for_cons_ne in Htimes by done.
    rewrite results_for_cons_ne by done.
    apply IH; [| done]. by rewrite checkRateLimit_frame.
Qed.

Lemma clients_are_isolated_witness :
  results_for "192.168.1.2" (serve ∅ hundred_and_one_calls).1
  = results_for "192.168.1.2" (serve ∅ (replicate 101 ("192.168.1.2", 5))).1.
Proof.
  apply (clients_are_isolated "192.168.1.2" hundred_and_one_calls
           (replicate 101 ("192.168.1.2", 5)) ∅ ∅); reflexivity.
Defined.


(** A call within the window reports and keeps the stored resetTime. *)
Lemma reported_reset_of_live_entry ip now m entry :
  m !! ip = Some entry →
  now ≤ resetTime entry →
  result_resetTime (checkRateLimit ip now m).1 = resetTime entry
  ∧ allowed (checkRateLimit ip now m).1 = (count entry <? maxRequests RATE_LIMIT).
Proof.
  intros Hm Hlive. unfold checkRateLimit. rewrite Hm, window_entry_live by done.
  rewrite Z.geb_leb.
  destruct (Z.leb_spec (maxRequests RATE_LIMIT) (count entry));
    destruct (Z.ltb_spec (count entry) (maxRequests RATE_LIMIT)); try lia; done.
Qed.

(** Inside a window the stored resetTime does not move. *)
Lemma serve_in_window_reset key reset calls : ∀ m entry,
  m !! key = Some entry →
  resetTime entry = reset →
  Forall (λ t, t ≤ reset) (times_for key calls) →
  ∃ entry', (serve m calls).2 !! key = Some entry' ∧ resetTime entry' = reset.
Proof.
  induction calls as [|[ip now] calls IH]; intros m entry Hm Hreset Hts.
  { cbn. eauto. }
  rewrite serve_cons. cbn [snd].
  destruct (decide (ip = key)) as [->|Hne].
  - rewrite times_for_cons_eq in Hts. apply Forall_cons in Hts as [Hnow Hts].
    destruct (checkRateLimit_stored_reset key now m) as (entry' & Hstored & Hreset').
    apply (IH _ entry'); [done | | done].
    rewrite Hreset'.
    destruct (reported_reset_of_live_entry key now m entry) as [-> _]; [done | lia |].
    done.
  - rewrite times_for_cons_ne in Hts by done.
    apply (IH _ entry); [| done | done]. by rewrite checkRateLimit_frame.
Qed.

(** X7.  The window is fixed and its boundary is a hard reset.  Let a key
    without an entry make calls at [t0 :: ts], all within the window that
    [t0] opens, and then a call at [t1] after that window's resetTime,
    followed by calls at [ts'] within the window that [t1] opens.  Then the
    calls from [t1] on get the full quota again, whatever the first window
    used up: the j-th of them (from 0) is admitted with
    remaining = maxRequests - (j + 1) as long as j < maxRequests. *)
Theorem new_window_restores_full_quota key m before after t0 ts t1 ts' :
  m !! key = None →
  times_for key before = t0 :: ts →
  Forall (λ t, t ≤ t0 + windowMs RATE_LIMIT) ts →
  t0 + windowMs RATE_LIMIT < t1 →
  times_for key after = ts' →
  Forall (λ t, t ≤ t1 + windowMs RATE_LIMIT) ts' →
  ∀ j : nat,
    (j < length (t1 :: ts'))%nat →
    Z.of_nat j < maxRequests RATE_LIMIT →
    results_for key (serve m (before ++ (key, t1) :: after)%list).1
      !! (length (t0 :: ts) + j)%nat
    = Some {| allowed := true;
              remaining := maxRequests RATE_LIMIT - (Z.of_nat j + 1);
              result_resetTime := t1 + windowMs RATE_LIMIT |}.
Proof.
  intros Hm Hbefore Hts Hlater Hafter Hts' j Hj Hcap.
  rewrite serve_app. cbn [fst]. rewrite results_for_app.
  rewrite lookup_app_r; rewrite length_results_for, Hbefore; [|lia].
  replace (length (t0 :: ts) + j - length (t0 :: ts))%nat with j by lia.
  assert (∃ entry, (serve m before).2 !! key = Some entry
                   ∧ resetTime entry = t0 + windowMs RATE_LIMIT)
    as (entry & Hstored & Hreset).
  { clear Hafter Hts' Hj. revert m Hm Hbefore.
    induction before as [|[ip now] before IH]; intros m Hm Hbefore; [done|].
    rewrite serve_cons. cbn [snd].
    destruct (decide (ip = key)) as [->|Hne].
    - rewrite times_for_cons_eq in Hbefore. injection Hbefore as -> Hrest.
      destruct (checkRateLimit_stored_reset key t0 m) as (entry & Hstored & Hreset).
      apply (serve_in_window_reset key _ before _ entry); [done | | by rewrite Hrest].
      rewrite Hreset. unfold checkRateLimit. rewrite Hm.
      by destruct (_ >=? _).
    - rewrite times_for_cons_ne in Hbefore by done.
      apply IH; [| done]. by rewrite checkRateLimit_frame. }
  rewrite serve_cons. cbn [fst]. rewrite results_for_cons_eq.
  assert (window_entry t1 ((serve m before).2 !! key) = fresh_entry t1) as Hfresh.
  { rewrite Hstored. apply window_entry_expired. lia. }
  rewrite checkRateLimit_admits by (rewrite Hfresh; apply maxRequests_positive).
  rewrite Hfresh. cbn [fst snd fresh_entry count resetTime].
  destruct j as [|j]; [done|].
  cbn [lookup list_lookup]. cbn [length] in Hj.
  rewrite (serve_in_window key (t1 + windowMs RATE_LIMIT) after _ (0 + 1));
    [| by rewrite lookup_insert_eq | by rewrite Hafter | rewrite Hafter; lia].
  unfold verdict.
  destruct (Z.ltb_spec (0 + 1 + Z.of_nat j) (maxRequests RATE_LIMIT)); [| lia].
  do 2 f_equal. lia.
Qed.

Lemma new_window_restores_full_quota_witness :
  results_for "192.168.1.2"
    (serve ∅ ((("192.168.1.2", 0) :: replicate 100 ("192.168.1.2", 3600000))
              ++ ("192.168.1.2", 3600001) :: replicate 99 ("192.168.1.2", 3600001))%list).1
    !! 200%nat
  = Some {| allowed := true; remaining := 0; result_resetTime := 7200001 |}.
Proof.
  apply (new_window_restores_full_quota "192.168.1.2" ∅
           (("192.168.1.2", 0) :: replicate 100 ("192.168.1.2", 3600000))
           (replicate 99 ("192.168.1.2", 3600001))
           0 (replicate 100 3600000) 3600001 (replicate 99 3600001)).
  - reflexivity.
  - reflexivity.
  - apply Forall_replicate. cbn. lia.
  - reflexivity.
  - reflexivity.
  - apply Forall_replicate. cbn. lia.
  - cbn. lia.
  - reflexivity.
Defined.

End RateLimiterExtras.

(** * Further properties of the handler *)

Section HandlerExtras.
Implicit Types (host : Host) (req : VercelRequest).
Implicit Types (m : gmap string RateLimitEntry).

(** The run of an authenticated request, in full. *)
Lemma handler_authenticated_run host req m token :
  method req = Some "POST" →
  allowed (rate_check host req m) = true →
  authorization (headers req) = Some ("Bearer " ++ token) →
  BETA_API_KEY host = Some token →
  handler host req m =
    {| map_after := (checkRateLimit (clientIP req) (Date_now host) m).2;
       headers_set := rate_limit_headers (rate_check host req m);
       completion :=
         match (try_block host req).1 with
         | Normal (status, json) => Responded status json
         | Throw _ => Responded 500 (error_body "Failed to get response from AI")
         end;
       fetch_calls := (try_block host req).2;
       console :=
         match (try_block host req).1 with
         | Normal _ => []
         | Throw error => [console_error "API Error:" error]
         end |}.
Proof.
  intros Hm Hok Hauth Hkey. unfold handler, rate_check in *.
  rewrite bool_decide_eq_true_2 by done. cbn [negb].
  destruct (checkRateLimit _ _ _) as [r m']. cbn [fst snd] in *.
  rewrite Hok, Hauth, Hkey, replace_Bearer, str_truthy_Bearer, prefix_Bearer_intro.
  rewrite bool_decide_eq_true_2 by done. cbn [negb orb].
  by destruct (try_block host req) as [[[status json]|e] calls].
Qed.

(** The run of a request that passes the rate check but not the
    authentication. *)
Lemma handler_unauthenticated host req m :
  method req = Some "POST" →
  allowed (rate_check host req m) = true →
  (¬ ∃ token, authorization (headers req) = Some ("Bearer " ++ token)
              ∧ BETA_API_KEY host = Some token) →
  ∃ msg, completion (handler host req m) = Responded 401 (error_body msg)
         ∧ fetch_calls (handler host req m) = [].
Proof.
  intros Hm Hok Hno. unfold handler, rate_check in *.
  rewrite bool_decide_eq_true_2 by done. cbn [negb].
  destruct (checkRateLimit _ _ _) as [r m']. cbn [fst snd] in *.
  rewrite Hok. cbn [negb].
  destruct (authorization _) as [auth|]; [| by eexists].
  destruct (String.prefix "Bearer " auth) eqn:Hp;
    [| rewrite orb_true_r; by eexists].
  destruct (prefix_Bearer _ Hp) as [token ->].
  rewrite str_truthy_Bearer, replace_Bearer. cbn [negb orb].
  case_bool_decide as Hkey; [| by eexists].
  destruct Hno. eauto.
Qed.

Lemma authenticated_dec host req :
  (∃ token, authorization (headers req) = Some ("Bearer " ++ token)
            ∧ BETA_API_KEY host = Some token)
  ∨ ¬ (∃ token, authorization (headers req) = Some ("Bearer " ++ token)
                ∧ BETA_API_KEY host = Some token).
Proof.
  destruct (authorization (headers req)) as [auth|]; [| right; by intros (? & ? & ?)].
  destruct (String.prefix "Bearer " auth) eqn:Hp.
  - destruct (prefix_Bearer _ Hp) as [token ->].
    destruct (decide (BETA_API_KEY host = Some token)) as [Hkey|Hkey]; [by eauto|].
    right. intros (token' & Heq & Hkey'). apply (inj Some) in Heq.
    assert (token = token') as <-; [| done].
    rewrite <- (replace_Bearer token), Heq. apply replace_Bearer.
  - right. intros (token & Heq & _). apply (inj Some) in Heq.
    by rewrite Heq, prefix_Bearer_intro in Hp.
Qed.

(** X8.  The success path: for an authenticated POST request within its
    quota whose message is truthy, when the upstream answers ok and its
    first choice's message content is truthy, the handler answers 200 with
    body { response: content }, the content untouched, after exactly one
    fetch call, that of the request's message, and logs nothing. *)
Theorem upstream_content_is_returned_unmodified
    host req m token message status data aiResponse :
  method req = Some "POST" →
  allowed (rate_check host req m) = true →
  authorization (headers req) = Some ("Bearer " ++ token) →
  BETA_API_KEY host = Some token →
  getField (body req) "message" = Normal message →
  truthy message = true →
  fetch host (completion_request host message)
    = FetchResolved true status (JsonResolved data) →
  first_choice_content data = Normal aiResponse →
  truthy aiResponse = true →
  completion (handler host req m) = Responded 200 (JObj [("response", aiResponse)])
  ∧ fetch_calls (handler host req m) = [completion_request host message]
  ∧ headers_set (handler host req m) = rate_limit_headers (rate_check host req m)
  ∧ console (handler host req m) = [].
Proof.
  intros Hpost Hok Hauth Hkey Hmsg Htruthy Hfetch Hcontent Hai.
  rewrite (handler_authenticated_run host req m token) by done.
  cbn [completion fetch_calls headers_set console].
  unfold try_block. rewrite Hmsg, Htruthy. cbv zeta. rewrite Hfetch.
  cbn [negb fst snd]. unfold read_completion. rewrite Hcontent. cbn [bind].
  by rewrite Hai.
Qed.

Lemma upstream_content_is_returned_unmodified_witness :
  completion (handler sample_host sample_request ∅)
  = Responded 200 (JObj [("response", JStr "Hello in English")]).
Proof.
  refine (proj1 (upstream_content_is_returned_unmodified sample_host sample_request ∅
                   "test-api-key-123" (JStr "hola") 200
                   (JObj [("choices",
                           JArr [JObj [("message",
                                        JObj [("content", JStr "Hello in English")])]])])
                   (JStr "Hello in English") _ _ _ _ _ _ _ _ _)); reflexivity.
Defined.

(** X9.  A 200 is only ever the upstream's content: if the handler answers
    200, then the request was an authenticated POST within its quota, its
    message was truthy, the one fetch call made was that of this message,
    the upstream answered ok, and the body is { response: content } for
    the truthy content of the first choice of the upstream's answer. *)
Theorem ok_response_comes_from_upstream host req m json :
  completion (handler host req m) = Responded 200 json →
  method req = Some "POST"
  ∧ allowed (rate_check host req m) = true
  ∧ (∃ token, authorization (headers req) = Some ("Bearer " ++ token)
              ∧ BETA_API_KEY host = Some token)
  ∧ ∃ message status data aiResponse,
      getField (body req) "message" = Normal message
      ∧ truthy message = true
      ∧ fetch_calls (handler host req m) = [completion_request host message]
      ∧ fetch host (completion_request host message)
        = FetchResolved true status (JsonResolved data)
      ∧ first_choice_content data = Normal aiResponse
      ∧ truthy aiResponse = true
      ∧ json = JObj [("response", aiResponse)].
Proof.
  intros H200.
  destruct (decide (method req = Some "POST")) as [Hpost|Hpost];
    [| by rewrite handler_not_POST in H200].
  destruct (allowed (rate_check host req m)) eqn:Hok.
  2:{ rewrite handler_denied in H200 by done. cbn in H200.
      by destruct (toISOString _ _). }
  destruct (authenticated_dec host req) as [(token & Hauth & Hkey) | Hno].
  2:{ destruct (handler_unauthenticated host req m) as (msg & Hc & _); [done..|].
      by rewrite Hc in H200. }
  split_and!; [done | done | by eauto |].
  rewrite (handler_authenticated_run host req m token) in H200 |- * by done.
  cbn [completion fetch_calls] in *. revert H200. unfold try_block.
  destruct (getField (body req) "message") as [message|e]; [|done].
  destruct (truthy message) eqn:Htruthy; [|done].
  cbv zeta. cbn [negb fst snd].
  destruct (fetch host _) as [[] status [data|e]|e] eqn:Hfetch; cbn [negb]; try done.
  unfold read_completion.
  destruct (first_choice_content data) as [aiResponse|e] eqn:Hcontent; cbn [bind]; [|done].
  destruct (truthy aiResponse) eqn:Hai; cbn [negb]; [|done].
  intros [= <-]. by eexists message, status, data, aiResponse.
Qed.

Lemma ok_response_comes_from_upstream_witness :
  method sample_request = Some "POST"
  ∧ allowed (rate_check sample_host sample_request ∅) = true.
Proof.
  destruct (ok_response_comes_from_upstream sample_host sample_request ∅
              (JObj [("response", JStr "Hello in English")])) as (Hpost & Hok & _).
  - reflexivity.
  - by split.
Defined.


(** X10.  Every invocation ends with one of the six responses 200, 400,
    401, 405, 429, 500.  The only exception that can leave the handler is
    the RangeError of toISOString, on a denied POST request whose reset time
    is not a valid time value. *)
Theorem handler_outcomes host req m :
  match completion (handler host req m) with
  | Responded status _ => status ∈ [200; 400; 401; 405; 429; 500]
  | Uncaught e =>
      e = RangeError
      ∧ method req = Some "POST"
      ∧ allowed (rate_check host req m) = false
      ∧ 8640000000000000 < Z.abs (result_resetTime (rate_check host req m))
  end.
Proof.
  destruct (decide (method req = Some "POST")) as [Hpost|Hpost];
    [| rewrite handler_not_POST by done; cbn; repeat constructor].
  destruct (allowed (rate_check host req m)) eqn:Hok.
  2:{ rewrite handler_denied by done. cbn [completion]. unfold toISOString.
      destruct (Z.leb_spec (Z.abs (result_resetTime (rate_check host req m)))
                  8640000000000000); [repeat constructor | done]. }
  destruct (authenticated_dec host req) as [(token & Hauth & Hkey) | Hno].
  2:{ destruct (handler_unauthenticated host req m) as (msg & -> & _); [done..|].
      repeat constructor. }
  rewrite (handler_authenticated_run host req m token) by done. cbn [completion].
  destruct (try_block host req).1 as [[status json]|e] eqn:Htry; [| repeat constructor].
  destruct (try_block_status host req status json Htry) as [-> | ->];
    repeat constructor.
Qed.


(** X12.  What a POST request does to the limiter depends only on the
    client key and the clock: two POST requests with the same key at the
    same time leave the same map, whatever their authorization header,
    their body, the configured keys and the upstream.  In particular a
    request that fails authentication or validation still uses up quota. *)
Theorem quota_is_spent_before_any_other_check host host' req req' m :
  method req = Some "POST" →
  method req' = Some "POST" →
  clientIP req = clientIP req' →
  Date_now host = Date_now host' →
  map_after (handler host req m) = map_after (handler host' req' m)
  ∧ map_after (handler host req m) = (checkRateLimit (clientIP req) (Date_now host) m).2.
Proof.
  intros Hpost Hpost' Hip Hnow.
  rewrite !handler_POST_map by done. by rewrite Hip, Hnow.
Qed.

Lemma quota_is_spent_before_any_other_check_witness :
  map_after (handler sample_host sample_request ∅)
  = map_after (handler (with_fetch upstream_network_error sample_host)
                 (with_body JNull (with_authorization None sample_request)) ∅).
Proof.
  apply (quota_is_spent_before_any_other_check sample_host
           (with_fetch upstream_network_error sample_host) sample_request
           (with_body JNull (with_authorization None sample_request)) ∅);
    reflexivity.
Defined.

(** X13.  An authenticated POST request within its quota that has no body
    (req.body undefined or null) is not answered 400: reading message from
    it throws inside the try block, so it is answered 500 with the fixed
    body, no fetch call is made and the TypeError is logged. *)
Theorem missing_body_is_answered_500 host req m token :
  method req = Some "POST" →
  allowed (rate_check host req m) = true →
  authorization (headers req) = Some ("Bearer " ++ token) →
  BETA_API_KEY host = Some token →
  body req = JUndefined ∨ body req = JNull →
  completion (handler host req m)
    = Responded 500 (JObj [("error", JStr "Failed to get response from AI")])
  ∧ fetch_calls (handler host req m) = []
  ∧ console (handler host req m) = [console_error "API Error:" TypeError].
Proof.
  intros Hpost Hok Hauth Hkey Hbody.
  rewrite (handler_authenticated_run host req m token) by done.
  cbn [completion fetch_calls console]. unfold try_block.
  by destruct Hbody as [-> | ->].
Qed.

Lemma missing_body_is_answered_500_witness :
  completion (handler sample_host (with_body JUndefined sample_request) ∅)
    = Responded 500 (JObj [("error", JStr "Failed to get response from AI")])
  ∧ fetch_calls (handler sample_host (with_body JUndefined sample_request) ∅) = [].
Proof.
  destruct (missing_body_is_answered_500 sample_host
              (with_body JUndefined sample_request) ∅ "test-api-key-123")
    as (Hresp & Hcalls & _); try reflexivity.
  - by left.
  - by split.
Defined.

(** X14.  The message check is a truthiness check.  For an authenticated
    POST request within its quota whose body gives a message value: a falsy
    one (undefined, null, false, 0, the empty string) is answered 400
    { error: Message is required } without any fetch call; a truthy one,
    string or not, is sent upstream as it is, as the content of the user
    message of the one fetch call. *)
Theorem message_check_is_truthiness host req m token message :
  method req = Some "POST" →
  allowed (rate_check host req m) = true →
  authorization (headers req) = Some ("Bearer " ++ token) →
  BETA_API_KEY host = Some token →
  getField (body req) "message" = Normal message →
  (truthy message = false →
     completion (handler host req m)
       = Responded 400 (JObj [("error", JStr "Message is required")])
     ∧ fetch_calls (handler host req m) = [])
  ∧ (truthy message = true →
     ∃ call, fetch_calls (handler host req m) = [call]
             ∧ messages (fetch_body call) !! 1%nat
               = Some {| role := "user"; content := message |}
             ∧ completion (handler host req m)
               ≠ Responded 400 (JObj [("error", JStr "Message is required")])).
Proof.
  intros Hpost Hok Hauth Hkey Hmsg.
  rewrite (handler_authenticated_run host req m token) by done.
  cbn [completion fetch_calls]. unfold try_block. rewrite Hmsg.
  split; intros ->; [done|]. cbv zeta. cbn [negb fst snd].
  eexists. split; [done|]. split; [done|].
  destruct (fetch host _) as [[] status [data|e]|e]; cbn [negb]; try done.
  unfold read_completion.
  destruct (first_choice_content data) as [aiResponse|e]; cbn [bind]; [|done].
  by destruct (truthy aiResponse).
Qed.

Lemma message_check_is_truthiness_witness :
  completion (handler sample_host
                (with_body (JObj [("message", JNum 0)]) sample_request) ∅)
    = Responded 400 (JObj [("error", JStr "Message is required")])
  ∧ ∃ call,
      fetch_calls (handler sample_host
                     (with_body (JObj [("message", JNum 5)]) sample_request) ∅) = [call]
      ∧ messages (fetch_body call) !! 1%nat
        = Some {| role := "user"; content := JNum 5 |}.
Proof.
  split.
  - refine (proj1 (proj1 (message_check_is_truthiness sample_host
                            (with_body (JObj [("message", JNum 0)]) sample_request) ∅
                            "test-api-key-123" (JNum 0) _ _ _ _ _) _)); reflexivity.
  - destruct (message_check_is_truthiness sample_host
                (with_body (JObj [("message", JNum 5)]) sample_request) ∅
                "test-api-key-123" (JNum 5)) as [_ Htruthy]; try reflexivity.
    destruct (Htruthy eq_refl) as (call & Hcall & Hmessage & _).
    by exists call.
Defined.


(** X15.  Authentication is exact.  A POST request within its quota is
    answered 401 unless its authorization header is the text Bearer, one
    space and the configured key, character for character; and when no key
    is configured (BETA_API_KEY unset) every such request is answered 401
    and none reaches the upstream. *)
Theorem authentication_is_exact host req m :
  method req = Some "POST" →
  allowed (rate_check host req m) = true →
  ((∃ json, completion (handler host req m) = Responded 401 json)
   ↔ ¬ ∃ token, authorization (headers req) = Some ("Bearer " ++ token)
                ∧ BETA_API_KEY host = Some token)
  ∧ (BETA_API_KEY host = None →
     (∃ json, completion (handler host req m) = Responded 401 json)
     ∧ fetch_calls (handler host req m) = []).
Proof.
  intros Hpost Hok. split; [split|].
  - intros [json H401] (token & Hauth & Hkey).
    rewrite (handler_authenticated_run host req m token) in H401 by done.
    cbn [completion] in H401.
    destruct (try_block host req).1 as [[status json']|e] eqn:Htry; [|done].
    injection H401 as -> ->.
    by destruct (try_block_status host req 401 json Htry).
  - intros Hno.
    destruct (handler_unauthenticated host req m) as (msg & -> & _); [done..|].
    by eexists.
  - intros Hnone.
    destruct (handler_unauthenticated host req m) as (msg & -> & ->); [done | done | |].
    + intros (token & _ & Hkey). by rewrite Hnone in Hkey.
    + split; [by eexists | done].
Qed.

Lemma authentication_is_exact_witness :
  ∃ json,
    completion (handler sample_host
                  (with_authorization (Some "bearer test-api-key-123") sample_request) ∅)
    = Responded 401 json.
Proof.
  refine (proj2 (proj1 (authentication_is_exact sample_host
                          (with_authorization (Some "bearer test-api-key-123")
                             sample_request) ∅ _ _)) _).
  - reflexivity.
  - reflexivity.
  - intros (token & Hauth & _). discriminate Hauth.
Defined.

Lemma checkRateLimit_denied_map ip now m :
  allowed (checkRateLimit ip now m).1 = false → (checkRateLimit ip now m).2 = m.
Proof.
  intros Hdeny.
  destruct (Z.lt_ge_cases (count (window_entry now (m !! ip))) (maxRequests RATE_LIMIT))
    as [Hlt|Hge].
  { by rewrite checkRateLimit_admits in Hdeny. }
  rewrite checkRateLimit_denies by done. cbn [snd].
  pose proof maxRequests_positive as Hpos.
  destruct (m !! ip) as [entry|] eqn:Hm; [| cbn in Hge; lia].
  destruct (Z.lt_ge_cases (resetTime entry) now) as [Hpast|Hlive].
  { rewrite window_entry_expired in Hge by done. cbn in Hge. lia. }
  rewrite window_entry_live by lia. by apply insert_id.
Qed.

(** X16.  A POST request that the limiter denies has no effect: the map is
    left as it was, no header is set, nothing is fetched and nothing is
    logged. *)
Theorem denied_request_has_no_effect host req m :
  method req = Some "POST" →
  allowed (rate_check host req m) = false →
  map_after (handler host req m) = m
  ∧ headers_set (handler host req m) = []
  ∧ fetch_calls (handler host req m) = []
  ∧ console (handler host req m) = [].
Proof.
  intros Hpost Hdeny. rewrite handler_denied by done.
  cbn [map_after headers_set fetch_calls console].
  split; [| done]. by apply checkRateLimit_denied_map.
Qed.

Lemma denied_request_has_no_effect_witness :
  map_after (handler sample_host sample_request exhausted_map) = exhausted_map.
Proof.
  apply (denied_request_has_no_effect sample_host sample_request exhausted_map).
  - reflexivity.
  - by vm_compute.
Defined.

(** X17.  The headers of an admitted POST request describe the entry that
    the call has stored for the client: X-RateLimit-Remaining is
    X-RateLimit-Limit minus the stored count, and X-RateLimit-Reset is the
    stored resetTime. *)
Theorem headers_describe_stored_entry host req m :
  method req = Some "POST" →
  allowed (rate_check host req m) = true →
  ∃ entry,
    map_after (handler host req m) !! clientIP req = Some entry
    ∧ headers_set (handler host req m)
      = [("X-RateLimit-Limit", maxRequests RATE_LIMIT);
         ("X-RateLimit-Remaining", maxRequests RATE_LIMIT - count entry);
         ("X-RateLimit-Reset", resetTime entry)].
Proof.
  intros Hpost Hok.
  destruct (handler_admitted host req m Hpost Hok) as (-> & -> & _).
  unfold rate_check in *. revert Hok.
  destruct (Z.lt_ge_cases
              (count (window_entry (Date_now host) (m !! clientIP req)))
              (maxRequests RATE_LIMIT)) as [Hlt|Hge].
  - rewrite checkRateLimit_admits by done. intros _. cbn [fst snd].
    eexists. by rewrite lookup_insert_eq.
  - rewrite checkRateLimit_denies by done. done.
Qed.

Lemma headers_describe_stored_entry_witness :
  ∃ entry,
    map_after (handler sample_host sample_request ∅) !! clientIP sample_request
    = Some entry
    ∧ headers_set (handler sample_host sample_request ∅)
      = [("X-RateLimit-Limit", maxRequests RATE_LIMIT);
         ("X-RateLimit-Remaining", maxRequests RATE_LIMIT - count entry);
         ("X-RateLimit-Reset", resetTime entry)].
Proof.
  apply (headers_describe_stored_entry sample_host sample_request ∅); reflexivity.
Defined.

(** X18.  Whatever the request, the handler keeps the map reachable: after
    any invocation from a reachable map every count is at most maxRequests
    and every key that had an entry still has one. *)
Theorem handler_keeps_limiter_invariants host req m :
  reachable m →
  reachable (map_after (handler host req m))
  ∧ count_bounded (map_after (handler host req m))
  ∧ dom m ⊆ dom (map_after (handler host req m)).
Proof.
  intros Hreach.
  pose proof (handler_reachable host req m Hreach) as Hafter.
  split_and!; [done | by apply reachable_count_bounded |].
  destruct (decide (method req = Some "POST")) as [Hpost|Hpost];
    [| by rewrite handler_not_POST].
  rewrite handler_POST_map by done. unfold checkRateLimit.
  destruct (_ >=? _); cbn [snd]; rewrite dom_insert_L; apply union_subseteq_r.
Qed.

Lemma handler_keeps_limiter_invariants_witness :
  count_bounded (map_after (handler sample_host sample_request exhausted_map)).
Proof.
  apply (handler_keeps_limiter_invariants sample_host sample_request exhausted_map).
  apply serve_reachable, reachable_start.
Defined.


Lemma str_truthy_Some (s : string) : str_truthy (Some s) = true ↔ s ≠ "".
Proof.
  cbn. destruct (String.eqb_spec s ""); cbn; split; intros; done.
Qed.

(** The chain of [||] of lines 54-57 picks the first truthy operand. *)
Lemma first_truthy_source (a b c : option string) :
  default "unknown" (str_or (str_or (str_or a b) c) (Some "unknown"))
  = if str_truthy a then default "" a
    else if str_truthy b then default "" b
    else if str_truthy c then default "" c
    else "unknown".
Proof.
  unfold str_or, str_truthy.
  by destruct a as [[|? ?]|], b as [[|? ?]|], c as [[|? ?]|].
Qed.

(** X19.  The client key is never the empty string, and it is taken from
    the first source that is a non-empty string: the part of
    x-forwarded-for before its first comma, then x-real-ip, then the peer
    address of the connection, then the literal unknown.  A source that is
    absent or empty (a forwarded-for header that is empty or starts with a
    comma, too) is skipped. *)
Theorem clientIP_derivation req :
  clientIP req ≠ ""
  ∧ (∀ forwarded,
       x_forwarded_for (headers req) = Some forwarded →
       split_head "," forwarded ≠ "" →
       clientIP req = split_head "," forwarded)
  ∧ (str_truthy (split_head "," <$> x_forwarded_for (headers req)) = false →
     (∀ real, x_real_ip (headers req) = Some real → real ≠ "" → clientIP req = real)
     ∧ (str_truthy (x_real_ip (headers req)) = false →
        (∀ peer, remoteAddress req = Some peer → peer ≠ "" → clientIP req = peer)
        ∧ (str_truthy (remoteAddress req) = false → clientIP req = "unknown"))).
Proof.
  unfold clientIP. rewrite first_truthy_source. split_and!.
  - destruct (split_head "," <$> x_forwarded_for (headers req)) as [forwarded|] eqn:H1;
      [destruct (str_truthy (Some forwarded)) eqn:T1; [by apply str_truthy_Some|] |];
      (destruct (x_real_ip (headers req)) as [real|];
       [destruct (str_truthy (Some real)) eqn:T2; [by apply str_truthy_Some|] |];
       (destruct (remoteAddress req) as [peer|];
        [destruct (str_truthy (Some peer)) eqn:T3; [by apply str_truthy_Some|] |];
        done)).
  - intros forwarded -> Hne. cbn [fmap option_fmap option_map].
    apply str_truthy_Some in Hne. by rewrite Hne.
  - intros ->. split.
    + intros real -> Hne. apply str_truthy_Some in Hne. by rewrite Hne.
    + intros ->. split.
      * intros peer -> Hne. apply str_truthy_Some in Hne. by rewrite Hne.
      * by intros ->.
Qed.

Lemma split_head_without_sep (sep : ascii) (s : string) :
  Forall (λ c, c ≠ sep) (list_ascii_of_string s) → split_head sep s = s.
Proof.
  induction s as [|c s IH]; [done|]. cbn. intros [Hc Hs]%Forall_cons.
  apply Ascii.eqb_neq in Hc. rewrite Hc. by rewrite IH.
Qed.

Lemma split_head_before_sep (sep : ascii) (first rest : string) :
  Forall (λ c, c ≠ sep) (list_ascii_of_string first) →
  split_head sep (first ++ String sep rest) = first.
Proof.
  induction first as [|c first IH].
  - intros _. change (split_head sep (String sep rest) = "").
    cbn. by rewrite Ascii.eqb_refl.
  - intros [Hc Hs]%Forall_cons.
    change (split_head sep (String c (first ++ String sep rest)) = String c first).
    cbn. apply Ascii.eqb_neq in Hc. rewrite Hc. by rewrite IH.
Qed.

(** X20.  When x-forwarded-for is a single non-empty address, or a list
    whose first address is non-empty, that address, taken as it is up to
    the first comma, is the client key, whatever x-real-ip and the peer
    address are. *)
Theorem clientIP_is_first_forwarded_address req (first rest : string) :
  first ≠ "" →
  Forall (λ c, c ≠ ","%char) (list_ascii_of_string first) →
  x_forwarded_for (headers req) = Some first
  ∨ x_forwarded_for (headers req) = Some (first ++ String "," rest) →
  clientIP req = first.
Proof.
  intros Hne Hfirst Hheader.
  assert (split_head "," <$> x_forwarded_for (headers req) = Some first) as Hhead.
  { destruct Hheader as [-> | ->]; cbn [fmap option_fmap option_map]; f_equal.
    - by apply split_head_without_sep.
    - by apply split_head_before_sep. }
  unfold clientIP. rewrite first_truthy_source, Hhead.
  apply str_truthy_Some in Hne. by rewrite Hne.
Qed.

Lemma clientIP_is_first_forwarded_address_witness :
  clientIP {| method := Some "POST";
              headers := {| x_forwarded_for := Some "203.0.113.7, 10.0.0.1";
                            x_real_ip := Some "10.0.0.2";
                            authorization := None |};
              remoteAddress := Some "127.0.0.1";
              body := JUndefined |}
  = "203.0.113.7".
Proof.
  apply (clientIP_is_first_forwarded_address _ "203.0.113.7" " 10.0.0.1").
  - discriminate.
  - repeat constructor; discriminate.
  - by right.
Defined.

(** X21.  Extracting the key from a header of the Bearer scheme removes
    the scheme and nothing else: the scheme followed by the extracted key
    is the header again, so a key that itself contains spaces or the word
    Bearer is compared whole. *)
Theorem Bearer_key_extraction (auth : string) :
  String.prefix "Bearer " auth = true →
  "Bearer " ++ replace "Bearer " "" auth = auth.
Proof.
  intros Hscheme. destruct (prefix_Bearer _ Hscheme) as [token ->].
  by rewrite replace_Bearer.
Qed.

Lemma Bearer_key_extraction_witness :
  replace "Bearer " "" "Bearer Bearer a b" = "Bearer a b"
  ∧ "Bearer " ++ replace "Bearer " "" "Bearer Bearer a b" = "Bearer Bearer a b".
Proof.
  split; [reflexivity|].
  apply (Bearer_key_extraction "Bearer Bearer a b"). reflexivity.
Defined.

Lemma getFieldOpt_total (v : JsValue) (name : string) :
  ∃ w, getFieldOpt v name = Normal w.
Proof. destruct v; cbn; by eexists. Qed.

(** X22.  Reading [data.choices[0]?.message?.content] throws exactly when
    [data] itself or [data.choices] is undefined or null, and what it
    throws is a TypeError; the two optional steps never throw.  So an
    upstream body without a choices member ends in the catch block, while
    an empty choices array, a first choice that is undefined or null, a
    first choice without message (or with an undefined or null one) and a
    message without content all read as undefined; a first choice whose
    message has a content reads as that content. *)
Theorem first_choice_content_throws (data : JsValue) :
  let nullish (v : JsValue) := v = JUndefined ∨ v = JNull in
  ((∃ e, first_choice_content data = Throw e)
   ↔ nullish data ∨ ∃ choices, getField data "choices" = Normal choices ∧ nullish choices)
  ∧ (∀ e, first_choice_content data = Throw e → e = TypeError)
  ∧ (getField data "choices" = Normal (JArr []) →
     first_choice_content data = Normal JUndefined)
  ∧ (∀ first others,
       getField data "choices" = Normal (JArr (first :: others)) →
       (nullish first → first_choice_content data = Normal JUndefined)
       ∧ (∀ props,
            first = JObj props →
            (assoc "message" props = None →
             first_choice_content data = Normal JUndefined)
            ∧ (∀ message,
                 assoc "message" props = Some message →
                 (nullish message → first_choice_content data = Normal JUndefined)
                 ∧ (∀ mprops,
                      message = JObj mprops →
                      (assoc "content" mprops = None →
                       first_choice_content data = Normal JUndefined)
                      ∧ (∀ aiResponse,
                           assoc "content" mprops = Some aiResponse →
                           first_choice_content data = Normal aiResponse))))).
Proof.
  intros nullish. split_and!.
  - unfold first_choice_content.
    destruct (getField data "choices") as [choices|e] eqn:Hdata.
    2:{ assert (nullish data) as Hnull.
        { destruct data; cbn in Hdata; try done; [by left | by right]. }
        cbn [bind]. split; [by left | by eexists]. }
    assert (¬ nullish data) as Hdata'.
    { intros [-> | ->]; discriminate Hdata. }
    cbn [bind].
    destruct (getIndex choices 0) as [first|e] eqn:Hfirst.
    2:{ assert (nullish choices) as Hnull.
        { destruct choices; cbn in Hfirst; try done; [by left | by right]. }
        cbn [bind]. split; [right; by eexists | by eexists]. }
    assert (¬ nullish choices) as Hchoices.
    { intros [-> | ->]; discriminate Hfirst. }
    cbn [bind].
    destruct (getFieldOpt_total first "message") as [message ->]. cbn [bind].
    destruct (getFieldOpt_total message "content") as [aiResponse ->].
    split.
    + by intros [e ?].
    + intros [? | (choices' & [= <-] & ?)]; done.
  - intros e. unfold first_choice_content.
    destruct (getField data "choices") as [choices|e'] eqn:Hdata.
    2:{ cbn [bind]. intros [= <-]. destruct data; cbn in Hdata; congruence. }
    cbn [bind].
    destruct (getIndex choices 0) as [first|e'] eqn:Hfirst.
    2:{ cbn [bind]. intros [= <-]. destruct choices; cbn in Hfirst; congruence. }
    cbn [bind].
    destruct (getFieldOpt_total first "message") as [message ->]. cbn [bind].
    by destruct (getFieldOpt_total message "content") as [aiResponse ->].
  - intros Hchoices. unfold first_choice_content. by rewrite Hchoices.
  - intros first others Hchoices. unfold first_choice_content. rewrite Hchoices.
    cbn. split.
    { by intros [-> | ->]. }
    intros props ->. cbn. split.
    { by intros ->. }
    intros message ->. cbn. split.
    { by intros [-> | ->]. }
    intros mprops ->. cbn. split.
    + by intros ->.
    + by intros aiResponse ->.
Qed.



Lemma fetch_calls_at_most_one host req m :
  (length (fetch_calls (handler host req m)) ≤ 1)%nat.
Proof.
  destruct (fetch_calls (handler host req m)) as [|call calls] eqn:Hcalls; [cbn; lia|].
  destruct (fetch_calls_inv host req m) as (_ & _ & _ & message & _ & _ & Hone);
    [by rewrite Hcalls|].
  rewrite Hcalls in Hone. by injection Hone as -> ->.
Qed.

Lemma post_times_cons_eq key host req reqs :
  method req = Some "POST" → clientIP req = key →
  post_times key ((host, req) :: reqs) = Date_now host :: post_times key reqs.
Proof. intros Hpost Hip. unfold post_times. by rewrite filter_cons_True. Qed.

Lemma post_times_cons_ne key host req reqs :
  ¬ (method req = Some "POST" ∧ clientIP req = key) →
  post_times key ((host, req) :: reqs) = post_times key reqs.
Proof. intros Hno. unfold post_times. by rewrite filter_cons_False. Qed.

Lemma upstream_calls_cons_eq key req run runs :
  clientIP req = key →
  upstream_calls key ((req, run) :: runs)
  = (fetch_calls run ++ upstream_calls key runs)%list.
Proof. intros Hip. unfold upstream_calls. by rewrite filter_cons_True. Qed.

Lemma upstream_calls_cons_ne key req run runs :
  clientIP req ≠ key →
  upstream_calls key ((req, run) :: runs) = upstream_calls key runs.
Proof. intros Hip. unfold upstream_calls. by rewrite filter_cons_False. Qed.

(** A request that is not a POST of the client leaves the client's entry
    alone and adds nothing to the client's upstream calls. *)
Lemma other_request_is_neutral key host req m runs :
  ¬ (method req = Some "POST" ∧ clientIP req = key) →
  map_after (handler host req m) !! key = m !! key
  ∧ upstream_calls key ((req, handler host req m) :: runs) = upstream_calls key runs.
Proof.
  intros Hno.
  destruct (decide (method req = Some "POST")) as [Hpost|Hpost].
  - assert (clientIP req ≠ key) as Hip by (intros ?; by destruct Hno).
    rewrite handler_POST_map by done.
    split; [by apply checkRateLimit_frame | by apply upstream_calls_cons_ne].
  - rewrite handler_not_POST by done. cbn [map_after]. split; [done|].
    destruct (decide (clientIP req = key)) as [Hip|Hip].
    + by rewrite upstream_calls_cons_eq.
    + by rewrite upstream_calls_cons_ne.
Qed.

(** Within a window, a client whose entry counts [used] requests gets at
    most [maxRequests - used] more upstream calls. *)
Lemma upstream_calls_in_window key reset reqs : ∀ m used,
  m !! key = Some {| count := used; resetTime := reset |} →
  Forall (λ t, t ≤ reset) (post_times key reqs) →
  (length (upstream_calls key (handle_requests m reqs))
   ≤ Z.to_nat (maxRequests RATE_LIMIT - used))%nat.
Proof.
  induction reqs as [|[host req] reqs IH]; intros m used Hm Hts; [cbn; lia|].
  cbn [handle_requests].
  destruct (decide (method req = Some "POST" ∧ clientIP req = key)) as [[Hpost Hip]|Hno].
  2:{ destruct (other_request_is_neutral key host req m
                  (handle_requests (map_after (handler host req m)) reqs) Hno)
        as [Hsame ->].
      rewrite post_times_cons_ne in Hts by done.
      apply IH; [by rewrite Hsame | done]. }
  rewrite post_times_cons_eq in Hts by done.
  apply Forall_cons in Hts as [Hnow Hts].
  rewrite upstream_calls_cons_eq, length_app by done.
  pose proof (window_entry_live (Date_now host) {| count := used; resetTime := reset |} Hnow)
    as Hlive.
  destruct (Z.lt_ge_cases used (maxRequests RATE_LIMIT)) as [Hlt|Hge].
  - pose proof (fetch_calls_at_most_one host req m) as Hone.
    assert (length (upstream_calls key
                      (handle_requests (map_after (handler host req m)) reqs))
            ≤ Z.to_nat (maxRequests RATE_LIMIT - (used + 1)))%nat as Hrest.
    { apply IH; [| done]. rewrite handler_POST_map, Hip by done.
      rewrite checkRateLimit_admits by (rewrite Hm, Hlive; done).
      rewrite Hm, Hlive. cbn [snd count resetTime]. by rewrite lookup_insert_eq. }
    lia.
  - assert (allowed (rate_check host req m) = false) as Hdeny.
    { unfold rate_check. rewrite Hip.
      by rewrite checkRateLimit_denies by (rewrite Hm, Hlive; done). }
    rewrite handler_denied by done. cbn [fetch_calls map_after length].
    rewrite checkRateLimit_denied_map by done.
    apply IH; [done | done].
Qed.

(** X23.  The limiter caps what a client can cost upstream: in a run of
    the server from a map without an entry for the client, if the client's
    POST requests all arrive within the window that the first of them
    opens, then at most maxRequests fetch calls are made for the client's
    requests, however many it sends and whatever other clients do. *)
Theorem upstream_calls_capped_per_window key m reqs t0 ts :
  m !! key = None →
  post_times key reqs = t0 :: ts →
  Forall (λ t, t ≤ t0 + windowMs RATE_LIMIT) ts →
  (length (upstream_calls key (handle_requests m reqs))
   ≤ Z.to_nat (maxRequests RATE_LIMIT))%nat.
Proof.
  revert m. induction reqs as [|[host req] reqs IH]; intros m Hm Htimes Hts; [done|].
  cbn [handle_requests].
  destruct (decide (method req = Some "POST" ∧ clientIP req = key)) as [[Hpost Hip]|Hno].
  2:{ destruct (other_request_is_neutral key host req m
                  (handle_requests (map_after (handler host req m)) reqs) Hno)
        as [Hsame ->].
      rewrite post_times_cons_ne in Htimes by done.
      apply IH; [by rewrite Hsame | done | done]. }
  rewrite post_times_cons_eq in Htimes by done. injection Htimes as Hnow Hrest.
  rewrite upstream_calls_cons_eq, length_app by done.
  pose proof (fetch_calls_at_most_one host req m) as Hone.
  pose proof maxRequests_positive as Hpos.
  assert (length (upstream_calls key
                    (handle_requests (map_after (handler host req m)) reqs))
          ≤ Z.to_nat (maxRequests RATE_LIMIT - 1))%nat as Hafter.
  { apply (upstream_calls_in_window key (t0 + windowMs RATE_LIMIT)); [| by rewrite Hrest].
    rewrite handler_POST_map, Hip, Hnow by done.
    rewrite checkRateLimit_admits by (rewrite Hm; cbn; apply maxRequests_positive).
    rewrite Hm, window_entry_none. cbn [snd fresh_entry count resetTime].
    by rewrite lookup_insert_eq. }
  lia.
Qed.

Lemma upstream_calls_capped_per_window_witness :
  (length (upstream_calls "192.168.1.2"
             (handle_requests ∅ (replicate 150 (sample_host, sample_request))))
   ≤ Z.to_nat (maxRequests RATE_LIMIT))%nat.
Proof.
  apply (upstream_calls_capped_per_window "192.168.1.2" ∅
           (replicate 150 (sample_host, sample_request)) 0 (replicate 149 0)).
  - reflexivity.
  - reflexivity.
  - apply Forall_replicate. cbn. lia.
Defined.

End HandlerExtras.
